(** * The transition engine of [transition.go]

    A shallow embedding of the state machine in package [common]:
    [Transition], [StateMachine], [AvailableTriggers], [Do] and [log],
    followed by the properties of the engine.

    Go strings are byte strings and are modelled by [string]; [uint] is
    modelled by [N] (64-bit platform).  The trigger table
    [map[string]map[string]interface{}] is a [gmap string (gmap string iface)].
    The transactional handle [*gorm.DB] and the printer [Lang] are external
    and are taken as parameters of the development. *)

From Stdlib Require Import String Ascii NArith ZArith List Permutation.
From stdpp Require Import gmap strings list fin_maps.

Local Open Scope string_scope.
Local Open Scope list_scope.

(** ** Go values *)

(** [errors.New(text)]; [Error] is the method of the [error] interface. *)
Record error := errors_New { Error : string }.

(** First-order dynamic values: what an [interface{}] argument or a struct
    field seen through [reflect] may hold. *)
Inductive any :=
| AnyString (s : string)
| AnyUint (n : N)
| AnyInt (z : Z)
| AnyBool (b : bool).

Record AvailableTrigger := {
  TranslatedTrigger : string;
  Trigger : string
}.

(** [StateMachineLog]; the embedded [gorm.Model] is left at its zero value
    by [log] and is filled in by the handle, so it is not part of the
    record the engine builds.  The field [Trigger] is [LogTrigger] here,
    the name being taken by [AvailableTrigger]. *)
Record StateMachineLog := {
  ObjectId : N;
  ObjectStruct : string;
  LogTrigger : string;
  Source : string;
  Dest : string;
  OperatorId : N
}.

(** [strings.Split(s, sep)] for a one-byte separator: the pieces between
    the occurrences of [sep]; never empty ([Split "" sep = [""]]). *)
Fixpoint Split (s : string) (sep : ascii) : list string :=
  match s with
  | EmptyString => [EmptyString]
  | String c rest =>
      if Ascii.eqb c sep then EmptyString :: Split rest sep
      else match Split rest sep with
           | [] => [String c EmptyString]
           | piece :: pieces => String c piece :: pieces
           end
  end.

(** The loop of [Do], lines 120-126: [src] is the loop variable declared
    outside the loop, [canDo] is set when a piece equals the current state;
    the loop runs to the end of the slice. *)
Definition scan_sources (currentState : string) (pieces : list string)
  : bool * string :=
  fold_left
    (fun (acc : bool * string) (piece : string) =>
       (if String.eqb piece currentState then true else fst acc, piece))
    pieces (false, "").

(** Results of a computation of the engine: a value to go on with, a
    [return] out of the function, or a run-time panic. *)
Inductive Res (A : Type) :=
| Val (a : A)
| Return (err : option error)
| Panic (msg : string).
Arguments Val {A} a.
Arguments Return {A} err.
Arguments Panic {A} msg.

(** The arguments of [Omit]: the name of a column, or
    [clause.Associations], which stands for every association of the
    model. *)
Inductive Omitted :=
| clause_Associations
| OmitColumn (name : string).

Section Values.

(** The state behind the handle [tx : *gorm.DB]. *)
Context {DB : Type}.

(** Values stored in a trigger's configuration map.  A guard is a
    [func(tx *gorm.DB, ...interface{}) bool], a hook is a
    [func(tx *gorm.DB, ...interface{}) error].  Function values are
    modelled by their signature: a non-nil function that reads and writes
    the handle it is given and reads its arguments; it does not reach the
    entity by another way.  A missing key, like a stored nil, reads as the
    nil interface, [None]. *)
Inductive iface :=
| IVal (v : any)
| IFuncBool (f : DB -> list any -> bool * DB)
| IFuncError (f : DB -> list any -> option error * DB).

(** An entity bound to its engine: a pointer to a struct that embeds
    [StateMachine].  [TypeName] is what [StructName] returns for it,
    [Fields] are its fields as [reflect] sees them, [States] and
    [Triggers] are what its methods of those names return, [State] is the
    embedded [Transition.State]. *)
Record Stater := {
  TypeName : string;
  Fields : gmap string any;
  States : list string;
  Triggers : gmap string (gmap string iface);
  State : string
}.

Definition StructName (obj : Stater) : string := TypeName obj.

Definition GetState (ts : Stater) : string := State ts.

Definition SetState (state : string) (ts : Stater) : Stater :=
  {| TypeName := TypeName ts; Fields := Fields ts; States := States ts;
     Triggers := Triggers ts; State := state |}.

(** What the engine asks of its collaborators, in order. *)
Inductive Call :=
| CallCondition (args : list any)
| CallBefore (args : list any)
| CallAfter (args : list any)
| CallUpdate (model : Stater) (omit : list Omitted) (column value : string)
    (err : option error)
| CallPrintln (src dest : string)
| CallCreate (record : StateMachineLog) (err : option error).

(** The entity in memory, the state of the handle, and the calls made
    so far. *)
Record World := {
  stater : Stater;
  db : DB;
  calls : list Call
}.

End Values.

Arguments iface : clear implicits.
Arguments Stater : clear implicits.
Arguments Call : clear implicits.
Arguments World : clear implicits.

(** The two operations of the handle the engine uses:
    [tx.Debug().Model(m).Omit(omit...).Update(column, value).Error]
    and [tx.Create(&record).Error]. *)
Class Handle (DB : Type) := {
  tx_Update : Stater DB -> list Omitted -> string -> string -> DB -> option error * DB;
  tx_Create : StateMachineLog -> DB -> option error * DB
}.

(** [Lang.Sprintf]: the catalogue lookup of the printer [Lang]. *)
Class Printer := {
  Lang_Sprintf : string -> string
}.

Section Engine.

Context {DB : Type} `{!Handle DB} `{!Printer}.

Definition M (A : Type) : Type := World DB -> Res A * World DB.

Definition ret {A} (a : A) : M A := fun w => (Val a, w).

Definition bind {A B} (m : M A) (k : A -> M B) : M B :=
  fun w =>
    match m w with
    | (Val a, w') => k a w'
    | (Return e, w') => (Return e, w')
    | (Panic msg, w') => (Panic msg, w')
    end.

Definition return_ {A} (err : option error) : M A := fun w => (Return err, w).

Definition panic {A} (msg : string) : M A := fun w => (Panic msg, w).

Notation "'let*' x ':=' m 'in' k" := (bind m (fun x => k))
  (at level 10, x name, m at level 100, k at level 200).

Definition get_stater : M (Stater DB) := fun w => (Val (stater w), w).

Definition emit (c : Call DB) : M unit :=
  fun w => (Val tt, {| stater := stater w; db := db w; calls := calls w ++ [c] |}).

(** Run a function value on the handle. *)
Definition on_db {A} (f : DB -> A * DB) : M A :=
  fun w => let (a, d) := f (db w) in
           (Val a, {| stater := stater w; db := d; calls := calls w |}).

(** [sm.stater.SetState(dest)] *)
Definition set_state (dest : string) : M unit :=
  fun w => (Val tt, {| stater := SetState dest (stater w); db := db w; calls := calls w |}).

(** Type assertions; each panics on a value of another dynamic type and
    on nil. *)
Definition assert_string (v : option (iface DB)) : M string :=
  match v with
  | Some (IVal (AnyString s)) => ret s
  | _ => panic "interface conversion: interface {} is not string"
  end.

Definition assert_func_bool (v : iface DB) : M (DB -> list any -> bool * DB) :=
  match v with
  | IFuncBool f => ret f
  | _ => panic "interface conversion: interface {} is not func(tx *gorm.DB, ...interface {}) bool"
  end.

Definition assert_func_error (v : iface DB) : M (DB -> list any -> option error * DB) :=
  match v with
  | IFuncError f => ret f
  | _ => panic "interface conversion: interface {} is not func(tx *gorm.DB, ...interface {}) error"
  end.

(** [reflect.ValueOf(sm.stater).Elem().FieldByName("ID").Uint()] converted
    to [uint]. *)
Definition reflect_ID (obj : Stater DB) : M N :=
  match Fields obj !! "ID" with
  | Some (AnyUint n) => ret (n mod 2 ^ 64)%N
  | _ => panic "reflect: call of reflect.Value.Uint on non-uint Value"
  end.

(** [log], lines 164-176. *)
Definition log (trigger source dest : string) (userInfoId : N) : M unit :=
  let* sm := get_stater in
  let* id := reflect_ID sm in
  let record := {| ObjectId := id; ObjectStruct := StructName sm;
                   LogTrigger := trigger; Source := source; Dest := dest;
                   OperatorId := userInfoId |} in
  let* err := on_db (tx_Create record) in
  let* _ := emit (CallCreate record err) in
  match err with
  | Some e => return_ (Some e)
  | None => return_ None
  end.

(** Lines 132-136: the guard, when the entry is not nil.  A false guard
    returns nil from [Do]. *)
Definition run_condition (conditionFunc : option (iface DB)) (args : list any) : M unit :=
  match conditionFunc with
  | Some v =>
      let* f := assert_func_bool v in
      let* _ := emit (CallCondition args) in
      let* ok := on_db (fun d => f d args) in
      if negb ok then return_ None else ret tt
  | None => ret tt
  end.

(** Lines 138-142 and 154-158: a hook, when the entry is not nil.  The
    error of the hook is returned from [Do] as it is. *)
Definition run_hook (called : list any -> Call DB) (hookFunc : option (iface DB))
  (args : list any) : M unit :=
  match hookFunc with
  | Some v =>
      let* f := assert_func_error v in
      let* _ := emit (called args) in
      let* err := on_db (fun d => f d args) in
      match err with
      | Some e => return_ (Some e)
      | None => ret tt
      end
  | None => ret tt
  end.

(** Lines 144-152: the state is set in memory, then the column "state"
    of the entity is written through the handle, the associations being
    omitted; the handle goes on in the state the update leaves. *)
Definition persist (dest : string) : M unit :=
  let* _ := set_state dest in
  let* sm := get_stater in
  let* err := on_db (tx_Update sm [clause_Associations] "state" dest) in
  let* _ := emit (CallUpdate sm [clause_Associations] "state" dest err) in
  match err with
  | Some e => return_ (Some e)
  | None => ret tt
  end.

(** [Do], lines 107-162. *)
Definition Do (trigger : string) (userInfoId : N) (args : list any) : M unit :=
  let* sm := get_stater in
  match Triggers sm !! trigger with
  | None => return_ (Some (errors_New ("can not do trigger: " +:+ trigger)))
  | Some config =>
      let* source := assert_string (config !! "source") in
      let* dest := assert_string (config !! "dest") in
      let beforeFunc := config !! "before" in
      let afterFunc := config !! "after" in
      let conditionFunc := config !! "condition" in
      let currentState := GetState sm in
      let '(canDo, src) := scan_sources currentState (Split source ",") in
      if negb canDo then
        return_ (Some (errors_New ("can not do trigger: " +:+ trigger +:+
                                   ", current state: " +:+ currentState)))
      else
        let* _ := run_condition conditionFunc args in
        let* _ := run_hook CallBefore beforeFunc args in
        let* _ := persist dest in
        let* _ := run_hook CallAfter afterFunc args in
        let* _ := emit (CallPrintln src dest) in
        log trigger src dest userInfoId
  end.

(** A caller that issues one [Do] after another, whatever each returns. *)
Fixpoint Do_all (requests : list (string * N * list any)) (w : World DB) : World DB :=
  match requests with
  | [] => w
  | (trigger, userInfoId, args) :: requests' =>
      Do_all requests' (Do trigger userInfoId args w).2
  end.

(** [TranslatedState], lines 87-89. *)
Definition TranslatedState (sm : Stater DB) : string :=
  Lang_Sprintf (StructName sm +:+ ":" +:+ GetState sm).

(** The inner loop of [AvailableTriggers], lines 94-102: one entry is
    appended for every piece of the source list equal to the state. *)
Definition matching_entries (sm : Stater DB) (trigger : string) (pieces : list string)
  : list AvailableTrigger :=
  flat_map
    (fun src =>
       if String.eqb src (GetState sm) then
         [{| TranslatedTrigger := Lang_Sprintf (StructName sm +:+ ":" +:+ trigger);
             Trigger := trigger |}]
       else [])
    pieces.

(** [AvailableTriggers], lines 91-105, along one iteration order of the
    trigger table.  [range] over a Go map visits every entry once, in an
    order the language leaves unspecified; [entries] is that order. *)
Fixpoint AvailableTriggers_along (entries : list (string * gmap string (iface DB)))
  (sm : Stater DB) (triggers : list AvailableTrigger) : Res (list AvailableTrigger) :=
  match entries with
  | [] => Val triggers
  | (trigger, config) :: entries' =>
      match config !! "source" with
      | Some (IVal (AnyString source)) =>
          AvailableTriggers_along entries' sm
            (triggers ++ matching_entries sm trigger (Split source ","))
      | _ => Panic "interface conversion: interface {} is not string"
      end
  end.

(** The iteration orders [range] may take over a map. *)
Definition range_order (m : gmap string (gmap string (iface DB)))
  (entries : list (string * gmap string (iface DB))) : Prop :=
  entries ≡ₚ map_to_list m.

(** [AvailableTriggers] as a relation between the entity and the slices a
    call may return (or the panic it may raise). *)
Definition AvailableTriggers (sm : Stater DB) (r : Res (list AvailableTrigger)) : Prop :=
  exists entries, range_order (Triggers sm) entries /\
                  r = AvailableTriggers_along entries sm [].

(** ** Observations on the calls made *)

(** The audit records the handle accepted. *)
Definition audit_records (cs : list (Call DB)) : list StateMachineLog :=
  flat_map (fun c => match c with CallCreate record None => [record] | _ => [] end) cs.

(** The invocations of the before- and after-hooks. *)
Definition hook_calls (cs : list (Call DB)) : list (Call DB) :=
  List.filter (fun c => match c with CallBefore _ | CallAfter _ => true | _ => false end) cs.

(** The writes of entity columns through the handle. *)
Definition updates (cs : list (Call DB)) : list (Call DB) :=
  List.filter (fun c => match c with CallUpdate _ _ _ _ _ => true | _ => false end) cs.

(** A guard that is absent, or runs on [d] and lets the trigger pass. *)
Definition guard_passes (conditionFunc : option (iface DB)) (args : list any)
  (d d' : DB) : Prop :=
  match conditionFunc with
  | None => d' = d
  | Some (IFuncBool f) => f d args = (true, d')
  | Some _ => False
  end.

(** A hook that is absent, or runs on [d] and returns nil. *)
Definition hook_succeeds (hookFunc : option (iface DB)) (args : list any)
  (d d' : DB) : Prop :=
  match hookFunc with
  | None => d' = d
  | Some (IFuncError f) => f d args = (None, d')
  | Some _ => False
  end.

(** The call recorded for an entry that is not nil. *)
Definition called_if_present (called : list any -> Call DB) (entry : option (iface DB))
  (args : list any) : list (Call DB) :=
  match entry with
  | Some _ => [called args]
  | None => []
  end.

(** The source list of a trigger, when its "source" entry is a string. *)
Definition sourceStates (config : gmap string (iface DB)) : option (list string) :=
  match config !! "source" with
  | Some (IVal (AnyString source)) => Some (Split source ",")
  | _ => None
  end.

(** The entries one trigger of the table contributes to
    [AvailableTriggers]. *)
Definition entry_triggers (sm : Stater DB) (entry : string * gmap string (iface DB))
  : list AvailableTrigger :=
  match sourceStates entry.2 with
  | Some pieces => matching_entries sm entry.1 pieces
  | None => []
  end.

(** The number of entries of a slice that name [trigger]. *)
Definition count_trigger (trigger : string) (l : list AvailableTrigger) : nat :=
  length (List.filter (fun a => String.eqb (Trigger a) trigger) l).

(** ** Well-typed trigger tables *)

Definition is_string (v : option (iface DB)) : bool :=
  match v with
  | Some (IVal (AnyString _)) => true
  | _ => false
  end.

Definition is_guard_or_nil (v : option (iface DB)) : bool :=
  match v with
  | None | Some (IFuncBool _) => true
  | _ => false
  end.

Definition is_hook_or_nil (v : option (iface DB)) : bool :=
  match v with
  | None | Some (IFuncError _) => true
  | _ => false
  end.

(** The entries [Do] reads have the dynamic types it asserts. *)
Definition well_typed (config : gmap string (iface DB)) : bool :=
  is_string (config !! "source") && is_string (config !! "dest") &&
  is_guard_or_nil (config !! "condition") &&
  is_hook_or_nil (config !! "before") && is_hook_or_nil (config !! "after").

(** The entity has a field "ID" of an unsigned integer kind. *)
Definition has_uint_ID (sm : Stater DB) : bool :=
  match Fields sm !! "ID" with
  | Some (AnyUint _) => true
  | _ => false
  end.

(** A result that is not a panic, and a result that is a [return]. *)
Definition no_panic {A} (r : Res A) : Prop :=
  match r with
  | Panic _ => False
  | _ => True
  end.

Definition returned {A} (r : Res A) : Prop :=
  match r with
  | Return _ => True
  | _ => False
  end.

(** On an entity with an unsigned "ID", [m] ends in a result that
    satisfies [Q] and leaves such an entity. *)
Definition ends_in {A} (Q : Res A -> Prop) (m : M A) : Prop :=
  forall w, has_uint_ID (stater w) = true ->
            Q (m w).1 /\ has_uint_ID (stater (m w).2) = true.

(** ** The state invariant *)

Definition state_valid (sm : Stater DB) : Prop := In (GetState sm) (States sm).

Definition dests_valid (sm : Stater DB) : Prop :=
  forall trigger config dest,
    Triggers sm !! trigger = Some config ->
    config !! "dest" = Some (IVal (AnyString dest)) ->
    In dest (States sm).

(** ** What a computation may do to the world *)

(** [m] relates every world to the world it leaves, whatever its result. *)
Definition keeps (R : World DB -> World DB -> Prop) {A} (m : M A) : Prop :=
  forall w, R w (m w).2.

(** The entity is untouched and no column is written. *)
Definition quiet (w w' : World DB) : Prop :=
  stater w' = stater w /\
  exists new, calls w' = calls w ++ new /\ updates new = [] .

(** The entity is untouched, or only its state was set, to [dest]. *)
Definition wrote (dest : string) (w w' : World DB) : Prop :=
  stater w' = stater w \/ stater w' = SetState dest (stater w).

End Engine.

(** ** An in-memory handle

    A handle that keeps what it is asked to write: the column updates
    and the audit table, and fails when told to. *)

Record MemDB := {
  mem_columns : list (string * string * string);
  mem_audit : list StateMachineLog;
  mem_update_error : option error;
  mem_create_error : option error
}.

(** [Omit] was given [clause.Associations]. *)
Definition omits_associations (omit : list Omitted) : bool :=
  existsb (fun o => match o with clause_Associations => true | _ => false end) omit.

(** An update writes the column of the model's table; when the
    associations are not omitted it saves them too, which is kept as a
    row of its own. *)
Definition mem_Update (m : Stater MemDB) (omit : list Omitted) (column value : string)
  (d : MemDB) : option error * MemDB :=
  match mem_update_error d with
  | Some e => (Some e, d)
  | None =>
      (None, {| mem_columns :=
                  mem_columns d ++ [(StructName m, column, value)]
                  ++ (if omits_associations omit then []
                      else [(StructName m, "associations", "saved")]);
                mem_audit := mem_audit d;
                mem_update_error := mem_update_error d;
                mem_create_error := mem_create_error d |})
  end.

Definition mem_Create (record : StateMachineLog) (d : MemDB) : option error * MemDB :=
  match mem_create_error d with
  | Some e => (Some e, d)
  | None =>
      (None, {| mem_columns := mem_columns d;
                mem_audit := mem_audit d ++ [record];
                mem_update_error := mem_update_error d;
                mem_create_error := mem_create_error d |})
  end.

Definition mem_handle : Handle MemDB :=
  {| tx_Update := mem_Update; tx_Create := mem_Create |}.

(** A printer with an empty catalogue: the key is printed as it is. *)
Definition key_printer : Printer := {| Lang_Sprintf := fun key => key |}.

Definition mem_empty : MemDB :=
  {| mem_columns := []; mem_audit := [];
     mem_update_error := None; mem_create_error := None |}.

Definition mem_update_down : MemDB :=
  {| mem_columns := []; mem_audit := [];
     mem_update_error := Some (errors_New "boom"); mem_create_error := None |}.

(** ** An order

    Entity type [Order] with states Created, Paid, Shipped and Cancelled. *)

Definition amount_positive (d : MemDB) (args : list any) : bool * MemDB :=
  (match args with
   | [AnyInt amount] => (0 <? amount)%Z
   | _ => false
   end, d).

Definition hook_ok (d : MemDB) (args : list any) : option error * MemDB := (None, d).

Definition hook_boom (d : MemDB) (args : list any) : option error * MemDB :=
  (Some (errors_New "boom"), d).

Definition pay_config : gmap string (iface MemDB) :=
  <["source" := IVal (AnyString "Created")]>
  (<["dest" := IVal (AnyString "Paid")]>
  (<["condition" := IFuncBool amount_positive]> ∅)).

Definition ship_config : gmap string (iface MemDB) :=
  <["source" := IVal (AnyString "Paid")]>
  (<["dest" := IVal (AnyString "Shipped")]>
  (<["before" := IFuncError hook_ok]>
  (<["after" := IFuncError hook_ok]> ∅))).

Definition cancel_config : gmap string (iface MemDB) :=
  <["source" := IVal (AnyString "Created,Paid")]>
  (<["dest" := IVal (AnyString "Cancelled")]> ∅).

Definition refuse_config : gmap string (iface MemDB) :=
  <["source" := IVal (AnyString "Created")]>
  (<["dest" := IVal (AnyString "Cancelled")]>
  (<["before" := IFuncError hook_boom]> ∅)).

Definition regret_config : gmap string (iface MemDB) :=
  <["source" := IVal (AnyString "Created")]>
  (<["dest" := IVal (AnyString "Cancelled")]>
  (<["after" := IFuncError hook_boom]> ∅)).

Definition order_triggers : gmap string (gmap string (iface MemDB)) :=
  <["pay" := pay_config]>
  (<["ship" := ship_config]>
  (<["cancel" := cancel_config]>
  (<["refuse" := refuse_config]>
  (<["regret" := regret_config]> ∅)))).

Definition order (state : string) : Stater MemDB :=
  {| TypeName := "Order";
     Fields := <["ID" := AnyUint 1]> ∅;
     States := ["Created"; "Paid"; "Shipped"; "Cancelled"];
     Triggers := order_triggers;
     State := state |}.

(** No call made yet. *)
Definition no_calls : list (Call MemDB) := [].

Definition order_world (state : string) (d : MemDB) : World MemDB :=
  {| stater := order state; db := d; calls := no_calls |}.

(** An entity whose one trigger names the same source twice. *)
Definition twice_config : gmap string (iface MemDB) :=
  <["source" := IVal (AnyString "Created,Created")]>
  (<["dest" := IVal (AnyString "Paid")]> ∅).

Definition twice : Stater MemDB :=
  {| TypeName := "Twice";
     Fields := <["ID" := AnyUint 2]> ∅;
     States := ["Created"; "Paid"];
     Triggers := <["pay" := twice_config]> ∅;
     State := "Created" |}.

(** The entries [AvailableTriggers] may return for orders and for
    [twice]. *)
Definition ship_entry : AvailableTrigger :=
  {| TranslatedTrigger := "Order:ship"; Trigger := "ship" |}.

Definition cancel_entry : AvailableTrigger :=
  {| TranslatedTrigger := "Order:cancel"; Trigger := "cancel" |}.

Definition twice_entry : AvailableTrigger :=
  {| TranslatedTrigger := "Twice:pay"; Trigger := "pay" |}.

(** One order in which [range] may visit the triggers of an order. *)
Definition order_entries : list (string * gmap string (iface MemDB)) :=
  [("pay", pay_config); ("ship", ship_config); ("cancel", cancel_config);
   ("refuse", refuse_config); ("regret", regret_config)].

(** The phases of [Do] in which an error can arise. *)
Inductive Phase := BeforePhase | PersistPhase | AfterPhase | AuditPhase.

(** ** The steps of [Do] after validation *)

Section Steps.

Context {DB : Type} `{!Handle DB}.

Local Notation "'let*' x ':=' m 'in' k" := (bind m (fun x => k))
  (at level 10, x name, m at level 100, k at level 200).

(** Lines 132-161 of [Do]: what runs once the trigger is found and the
    current state is one of its sources. *)
Definition after_validation (config : gmap string (iface DB))
  (trigger src dest : string) (userInfoId : N) (args : list any) : M unit :=
  let* _ := run_condition (config !! "condition") args in
  let* _ := run_hook CallBefore (config !! "before") args in
  let* _ := persist dest in
  let* _ := run_hook CallAfter (config !! "after") args in
  let* _ := emit (CallPrintln src dest) in
  log trigger src dest userInfoId.

(** Lines 154-161 of [Do]: what runs once the state column is written. *)
Definition after_persist (config : gmap string (iface DB))
  (trigger src dest : string) (userInfoId : N) (args : list any) : M unit :=
  let* _ := run_hook CallAfter (config !! "after") args in
  let* _ := emit (CallPrintln src dest) in
  log trigger src dest userInfoId.

(** The audit record [log] builds for an entity whose "ID" is [id]. *)
Definition audit_record (sm : Stater DB) (id : N) (trigger source dest : string)
  (userInfoId : N) : StateMachineLog :=
  {| ObjectId := (id mod 2 ^ 64)%N; ObjectStruct := StructName sm;
     LogTrigger := trigger; Source := source; Dest := dest;
     OperatorId := userInfoId |}.

(** The calls of a [Do] that stops before the state is set: nothing is
    written, and a nil return has called the guard and nothing else. *)
Definition stopped_early (args : list any) (r : Res unit) (new : list (Call DB)) : Prop :=
  updates new = [] /\ audit_records new = [] /\
  (r = Return None -> new = [CallCondition args]) /\
  (forall err, r = Return err -> new <> []).

(** The calls of a [Do] that has set the state of [sm] to [dest]: one
    update of the state column, and an audit record exactly when nil is
    returned. *)
Definition went_through (sm : Stater DB) (trigger dest : string) (userInfoId : N)
  (r : Res unit) (new : list (Call DB)) : Prop :=
  exists err,
    updates new = [CallUpdate (SetState dest sm) [clause_Associations] "state" dest err] /\
    ((audit_records new = [] /\ r <> Return None) \/
     (exists id source,
        err = None /\ r = Return None /\
        Fields sm !! "ID" = Some (AnyUint id) /\
        audit_records new = [audit_record sm id trigger source dest userInfoId])).

(** The trigger is declared with string entries and the current state is
    one of its sources: [Do] gets past lines 108-130. *)
Definition validated (sm : Stater DB) (trigger : string) : Prop :=
  exists config source dest,
    Triggers sm !! trigger = Some config /\
    config !! "source" = Some (IVal (AnyString source)) /\
    config !! "dest" = Some (IVal (AnyString dest)) /\
    In (GetState sm) (Split source ",").

End Steps.

(** ** Strings *)

(** The byte [c] occurs in [s]. *)
Fixpoint contains (c : ascii) (s : string) : bool :=
  match s with
  | EmptyString => false
  | String c' rest => Ascii.eqb c' c || contains c rest
  end.

(** ** Binding entities to their engine

    Entities live at addresses; [sm.stater] of the entity at an address
    is the address it is bound to, and is absent while it is nil. *)

(** [SetStater], lines 65-67, called on the entity at [l]. *)
Definition SetStater (l stater : N) (bound : gmap N N) : gmap N N :=
  <[l := stater]> bound.

(** What the type assertion to [Stater] and the call of [SetStater] find
    in an interface value: a pointer to an entity (a struct that embeds
    [StateMachine] and implements [Stater]), or a value on which they
    panic (nil, a nil pointer, a struct value or any value whose type
    does not implement [Stater], the methods of [StateMachine] having
    pointer receivers). *)
Inductive dynamic :=
| PtrToStater (l : N)
| NotStater.

(** [tx.Statement.Model] as [reflect] sees it: a pointer to a slice with
    the interface values of its elements, a pointer to a struct with the
    model itself as an interface value, a pointer to anything else (or a
    nil pointer), or a value [Elem] panics on. *)
Inductive Model :=
| ModelSlice (elems : list dynamic)
| ModelStruct (self : dynamic)
| ModelOther
| ModelNoElem.

(** The loop of [AfterFind], lines 73-77. *)
Fixpoint bind_elements (elems : list dynamic) (bound : gmap N N)
  : option string * gmap N N :=
  match elems with
  | [] => (None, bound)
  | PtrToStater l :: elems' => bind_elements elems' (SetStater l l bound)
  | NotStater :: _ =>
      (Some "interface conversion: interface {} is not common.Stater", bound)
  end.

(** [AfterFind], lines 69-85. *)
Definition AfterFind (model : Model) (bound : gmap N N) : Res unit * gmap N N :=
  match model with
  | ModelSlice elems =>
      match bind_elements elems bound with
      | (None, bound') => (Return None, bound')
      | (Some msg, bound') => (Panic msg, bound')
      end
  | ModelStruct (PtrToStater l) => (Return None, SetStater l l bound)
  | ModelStruct NotStater =>
      (Panic "interface conversion: interface {} is not common.Stater", bound)
  | ModelOther =>
      (Return (Some (errors_New "StateMachine AfterFind unknown type")), bound)
  | ModelNoElem => (Panic "reflect: call of reflect.Value.Elem", bound)
  end.

(** The entities the loop of [AfterFind] reaches: those before the first
    value it panics on. *)
Fixpoint bound_prefix (elems : list dynamic) : list N :=
  match elems with
  | PtrToStater l :: elems' => l :: bound_prefix elems'
  | _ => []
  end.

(** ** More handles and entities *)

Definition mem_create_down : MemDB :=
  {| mem_columns := []; mem_audit := [];
     mem_update_error := None; mem_create_error := Some (errors_New "boom") |}.

(** A handle after one accepted update of the state column of an order. *)
Definition mem_updated (value : string) (d : MemDB) : MemDB :=
  {| mem_columns := mem_columns d ++ [("Order", "state", value)];
     mem_audit := mem_audit d;
     mem_update_error := mem_update_error d;
     mem_create_error := mem_create_error d |}.

(** The same with one accepted audit record. *)
Definition mem_logged (record : StateMachineLog) (d : MemDB) : MemDB :=
  {| mem_columns := mem_columns d;
     mem_audit := mem_audit d ++ [record];
     mem_update_error := mem_update_error d;
     mem_create_error := mem_create_error d |}.

(** An order whose struct has no field "ID". *)
Definition anonymous_order (state : string) : Stater MemDB :=
  {| TypeName := "Order";
     Fields := ∅;
     States := ["Created"; "Paid"; "Shipped"; "Cancelled"];
     Triggers := order_triggers;
     State := state |}.

(** Triggers with entries of the wrong dynamic type. *)
Definition unsourced_config : gmap string (iface MemDB) :=
  <["source" := IVal (AnyInt 1)]>
  (<["dest" := IVal (AnyString "Paid")]> ∅).

Definition misguarded_config : gmap string (iface MemDB) :=
  <["source" := IVal (AnyString "Created")]>
  (<["dest" := IVal (AnyString "Paid")]>
  (<["condition" := IVal (AnyBool true)]> ∅)).

Definition misnotified_config : gmap string (iface MemDB) :=
  <["source" := IVal (AnyString "Created")]>
  (<["dest" := IVal (AnyString "Paid")]>
  (<["after" := IVal (AnyString "notify")]> ∅)).

Definition sloppy : Stater MemDB :=
  {| TypeName := "Sloppy";
     Fields := <["ID" := AnyUint 3]> ∅;
     States := ["Created"; "Paid"];
     Triggers := <["unsourced" := unsourced_config]>
                 (<["misguarded" := misguarded_config]>
                 (<["misnotified" := misnotified_config]> ∅));
     State := "Created" |}.

(** Two entities already in memory, the second bound to the first. *)
Definition two_entities : gmap N N := <[2%N := 1%N]> ∅.

(** ** The source scan *)

Example Split_two_sources : Split "Created,Paid" "," = ["Created"; "Paid"].
Proof. reflexivity. Qed.

Example Split_empty : Split "" "," = [""].
Proof. reflexivity. Qed.

Example Split_trailing_separator : Split "Created," "," = ["Created"; ""].
Proof. reflexivity. Qed.

Example scan_sources_first_of_two :
  scan_sources "Created" (Split "Created,Paid" ",") = (true, "Paid").
Proof. reflexivity. Qed.

Example scan_sources_no_match :
  scan_sources "Shipped" (Split "Created,Paid" ",") = (false, "Paid").
Proof. reflexivity. Qed.

Lemma Split_not_nil s sep : Split s sep <> [].
Proof.
  destruct s as [|c rest]; simpl; [discriminate|].
  destruct (Ascii.eqb c sep); [discriminate|].
  destruct (Split rest sep); discriminate.
Qed.

Lemma last_cons_default (p : string) ps s : List.last (p :: ps) s = List.last ps p.
Proof.
  revert p s. induction ps as [|q ps IH]; intros p s; [reflexivity|].
  change (List.last (p :: q :: ps) s) with (List.last (q :: ps) s).
  rewrite IH. symmetry. apply IH.
Qed.

Lemma scan_sources_from currentState pieces b s :
  fold_left
    (fun (acc : bool * string) (piece : string) =>
       (if String.eqb piece currentState then true else fst acc, piece))
    pieces (b, s)
  = (b || existsb (fun piece => String.eqb piece currentState) pieces, List.last pieces s).
Proof.
  revert b s. induction pieces as [|p ps IH]; intros b s; simpl.
  - by rewrite orb_false_r.
  - rewrite IH. f_equal.
    + destruct (String.eqb p currentState), b; reflexivity.
    + symmetry. apply last_cons_default.
Qed.

Lemma scan_sources_eq currentState pieces :
  scan_sources currentState pieces
  = (existsb (fun piece => String.eqb piece currentState) pieces, List.last pieces "").
Proof. unfold scan_sources. by rewrite scan_sources_from. Qed.

Lemma existsb_eqb_In currentState pieces :
  existsb (fun piece => String.eqb piece currentState) pieces = true
  <-> In currentState pieces.
Proof.
  rewrite existsb_exists. split.
  - intros (p & Hin & Heq). apply String.eqb_eq in Heq. by subst.
  - intros Hin. exists currentState. split; [done|]. apply String.eqb_refl.
Qed.

Lemma scan_sources_member currentState pieces :
  In currentState pieces ->
  scan_sources currentState pieces = (true, List.last pieces "").
Proof.
  intros Hin. rewrite scan_sources_eq. f_equal. by apply existsb_eqb_In.
Qed.

Lemma scan_sources_not_member currentState pieces :
  ~ In currentState pieces ->
  scan_sources currentState pieces = (false, List.last pieces "").
Proof.
  intros Hin. rewrite scan_sources_eq. f_equal.
  destruct (existsb _ pieces) eqn:E; [|done].
  apply existsb_eqb_In in E. contradiction.
Qed.

Section Properties.

Context {DB : Type} `{!Handle DB} `{!Printer}.

Implicit Types (d : DB) (sm : Stater DB) (w : World DB) (cs : list (Call DB)).
Implicit Types (config : gmap string (iface DB)) (c : Call DB).
Implicit Types (conditionFunc hookFunc afterFunc : option (iface DB)).

Local Notation "'let*' x ':=' m 'in' k" := (bind m (fun x => k))
  (at level 10, x name, m at level 100, k at level 200).

(** ** Steps of [Do] *)

Lemma run_condition_passes conditionFunc args sm d d' cs :
  guard_passes conditionFunc args d d' ->
  run_condition conditionFunc args {| stater := sm; db := d; calls := cs |}
  = (Val tt, {| stater := sm; db := d';
                calls := cs ++ called_if_present CallCondition conditionFunc args |}).
Proof.
  unfold guard_passes, run_condition.
  destruct conditionFunc as [[v|f|f]|]; try contradiction.
  - intros Hf. unfold bind, assert_func_bool, ret, emit, on_db; simpl. by rewrite Hf.
  - intros ->. unfold ret; simpl. by rewrite app_nil_r.
Qed.

Lemma run_hook_succeeds called hookFunc args sm d d' cs :
  hook_succeeds hookFunc args d d' ->
  run_hook called hookFunc args {| stater := sm; db := d; calls := cs |}
  = (Val tt, {| stater := sm; db := d';
                calls := cs ++ called_if_present called hookFunc args |}).
Proof.
  unfold hook_succeeds, run_hook.
  destruct hookFunc as [[v|f|f]|]; try contradiction.
  - intros Hf. unfold bind, assert_func_error, ret, emit, on_db; simpl. by rewrite Hf.
  - intros ->. unfold ret; simpl. by rewrite app_nil_r.
Qed.

Lemma run_hook_fails called f args sm d d' cs e :
  f d args = (Some e, d') ->
  run_hook called (Some (IFuncError f)) args {| stater := sm; db := d; calls := cs |}
  = (Return (Some e), {| stater := sm; db := d'; calls := cs ++ [called args] |}).
Proof.
  intros Hf. unfold run_hook, bind, assert_func_error, ret, emit, on_db, return_; simpl.
  by rewrite Hf.
Qed.

Lemma persist_result dest sm d cs :
  persist dest {| stater := sm; db := d; calls := cs |}
  = let (err, d') := tx_Update (SetState dest sm) [clause_Associations] "state" dest d in
    (match err with Some e => Return (Some e) | None => Val tt end,
     {| stater := SetState dest sm; db := d';
        calls := cs ++ [CallUpdate (SetState dest sm) [clause_Associations] "state" dest err] |}).
Proof.
  unfold persist, bind, set_state, get_stater, on_db, emit, return_, ret; simpl.
  destruct (tx_Update (SetState dest sm) [clause_Associations] "state" dest d) as [[e|] d']; reflexivity.
Qed.

(** [Do] up to the guard, for a declared trigger with string entries. *)
Lemma Do_declared trigger userInfoId args w config source dest :
  Triggers (stater w) !! trigger = Some config ->
  config !! "source" = Some (IVal (AnyString source)) ->
  config !! "dest" = Some (IVal (AnyString dest)) ->
  Do trigger userInfoId args w
  = let '(canDo, src) := scan_sources (GetState (stater w)) (Split source ",") in
    if negb canDo then
      (Return (Some (errors_New ("can not do trigger: " +:+ trigger +:+
                                 ", current state: " +:+ GetState (stater w)))), w)
    else
      (let* _ := run_condition (config !! "condition") args in
       let* _ := run_hook CallBefore (config !! "before") args in
       let* _ := persist dest in
       let* _ := run_hook CallAfter (config !! "after") args in
       let* _ := emit (CallPrintln src dest) in
       log trigger src dest userInfoId) w.
Proof.
  intros Hdecl Hsrc Hdst. unfold Do, bind at 1, get_stater.
  rewrite Hdecl, Hsrc, Hdst. unfold assert_string, bind at 1 2, ret.
  destruct (scan_sources _ _) as [canDo src]. by destruct canDo.
Qed.

Lemma log_result trigger source dest userInfoId sm d cs id :
  Fields sm !! "ID" = Some (AnyUint id) ->
  log trigger source dest userInfoId {| stater := sm; db := d; calls := cs |}
  = let record := {| ObjectId := (id mod 2 ^ 64)%N; ObjectStruct := TypeName sm;
                     LogTrigger := trigger; Source := source; Dest := dest;
                     OperatorId := userInfoId |} in
    let (err, d') := tx_Create record d in
    (Return err, {| stater := sm; db := d'; calls := cs ++ [CallCreate record err] |}).
Proof.
  intros Hid. unfold log, bind, get_stater, reflect_ID, on_db, emit, return_, ret; simpl.
  rewrite Hid; simpl.
  destruct (tx_Create _ d) as [[e|] d']; reflexivity.
Qed.

(** The whole of a [Do] call in which every step succeeds: the state
    becomes [dest], and the record handed to the handle carries as its
    [Source] the last piece of the source list. *)
Lemma Do_succeeds trigger userInfoId args sm d0 cs config source dest id d1 d2 d3 d4 d5 :
  Triggers sm !! trigger = Some config ->
  config !! "source" = Some (IVal (AnyString source)) ->
  config !! "dest" = Some (IVal (AnyString dest)) ->
  In (GetState sm) (Split source ",") ->
  guard_passes (config !! "condition") args d0 d1 ->
  hook_succeeds (config !! "before") args d1 d2 ->
  tx_Update (SetState dest sm) [clause_Associations] "state" dest d2 = (None, d3) ->
  hook_succeeds (config !! "after") args d3 d4 ->
  Fields sm !! "ID" = Some (AnyUint id) ->
  let src := List.last (Split source ",") "" in
  let record := {| ObjectId := (id mod 2 ^ 64)%N; ObjectStruct := TypeName sm;
                   LogTrigger := trigger; Source := src; Dest := dest;
                   OperatorId := userInfoId |} in
  tx_Create record d4 = (None, d5) ->
  Do trigger userInfoId args {| stater := sm; db := d0; calls := cs |}
  = (Return None,
     {| stater := SetState dest sm; db := d5;
        calls := (((((cs ++ called_if_present CallCondition (config !! "condition") args)
                    ++ called_if_present CallBefore (config !! "before") args)
                   ++ [CallUpdate (SetState dest sm) [clause_Associations] "state" dest None])
                  ++ called_if_present CallAfter (config !! "after") args)
                 ++ [CallPrintln src dest])
                ++ [CallCreate record None] |}).
Proof.
  intros Hdecl Hsrc Hdst Hin Hguard Hbefore Hupd Hafter Hid src record Hcreate.
  rewrite (Do_declared _ _ _ _ config source dest) by done. simpl stater.
  rewrite (scan_sources_member _ _ Hin). simpl negb. cbv iota beta.
  unfold bind at 1. rewrite (run_condition_passes _ _ _ _ _ _ Hguard).
  unfold bind at 1. rewrite (run_hook_succeeds _ _ _ _ _ _ _ Hbefore).
  unfold bind at 1. rewrite persist_result, Hupd.
  unfold bind at 1. rewrite (run_hook_succeeds _ _ _ _ _ _ _ Hafter).
  unfold bind at 1, emit at 1. simpl.
  rewrite (log_result _ _ _ _ _ _ _ id) by done. simpl.
  fold src. fold record. by rewrite Hcreate.
Qed.

(** ** Preservation along the steps *)

Lemma updates_app cs1 cs2 : updates (cs1 ++ cs2) = updates cs1 ++ updates cs2.
Proof. apply List.filter_app. Qed.

Lemma audit_records_app cs1 cs2 :
  audit_records (cs1 ++ cs2) = audit_records cs1 ++ audit_records cs2.
Proof. apply flat_map_app. Qed.

Lemma hook_calls_app cs1 cs2 : hook_calls (cs1 ++ cs2) = hook_calls cs1 ++ hook_calls cs2.
Proof. apply List.filter_app. Qed.

Lemma quiet_refl w : quiet w w.
Proof. split; [done|]. exists []. by rewrite app_nil_r. Qed.

Lemma quiet_trans w1 w2 w3 : quiet w1 w2 -> quiet w2 w3 -> quiet w1 w3.
Proof.
  intros [Hs1 (n1 & Hc1 & Hu1)] [Hs2 (n2 & Hc2 & Hu2)]. split; [congruence|].
  exists (n1 ++ n2). split.
  - by rewrite Hc2, Hc1, app_assoc.
  - by rewrite updates_app, Hu1, Hu2.
Qed.

Lemma wrote_refl dest w : wrote dest w w.
Proof. by left. Qed.

Lemma wrote_trans dest w1 w2 w3 : wrote dest w1 w2 -> wrote dest w2 w3 -> wrote dest w1 w3.
Proof.
  unfold wrote. intros [H1|H1] [H2|H2]; rewrite H2, H1; auto.
Qed.

Lemma quiet_wrote dest w w' : quiet w w' -> wrote dest w w'.
Proof. intros [Hs _]. by left. Qed.

Lemma keeps_bind (R : World DB -> World DB -> Prop) {A B} (m : M A) (k : A -> M B) :
  (forall w1 w2 w3, R w1 w2 -> R w2 w3 -> R w1 w3) ->
  keeps R m -> (forall a, keeps R (k a)) -> keeps R (bind m k).
Proof.
  intros Htrans Hm Hk w. unfold bind. specialize (Hm w).
  destruct (m w) as [[a|e|msg] w1]; simpl in *; [|done|done].
  eapply Htrans; [exact Hm|apply Hk].
Qed.

Lemma keeps_weaken (R R' : World DB -> World DB -> Prop) {A} (m : M A) :
  (forall w w', R w w' -> R' w w') -> keeps R m -> keeps R' m.
Proof. intros Himp Hm w. apply Himp, Hm. Qed.

Lemma keeps_quiet_emit c :
  updates [c] = [] -> keeps quiet (emit c).
Proof. intros Hc w. split; [done|]. by exists [c]. Qed.

Lemma keeps_quiet_on_db {A} (f : DB -> A * DB) : keeps quiet (on_db f).
Proof.
  intros w. unfold on_db. destruct (f (db w)) as [a d]. simpl.
  split; [done|]. exists []. by rewrite app_nil_r.
Qed.

Lemma keeps_quiet_run_condition conditionFunc args :
  keeps quiet (run_condition conditionFunc args).
Proof.
  unfold run_condition. destruct conditionFunc as [[v|f|f]|];
    try (intros w; apply quiet_refl).
  apply keeps_bind; [exact quiet_trans|intros w; apply quiet_refl|intros g].
  apply keeps_bind; [exact quiet_trans|by apply keeps_quiet_emit|intros _].
  apply keeps_bind; [exact quiet_trans|apply keeps_quiet_on_db|intros ok].
  destruct ok; intros w; apply quiet_refl.
Qed.

Lemma keeps_quiet_run_hook called hookFunc args :
  (forall a, updates [called a] = []) ->
  keeps quiet (run_hook called hookFunc args).
Proof.
  intros Hcalled.
  unfold run_hook. destruct hookFunc as [[v|f|f]|];
    try (intros w; apply quiet_refl).
  apply keeps_bind; [exact quiet_trans|intros w; apply quiet_refl|intros g].
  apply keeps_bind; [exact quiet_trans|by apply keeps_quiet_emit|intros _].
  apply keeps_bind; [exact quiet_trans|apply keeps_quiet_on_db|intros err].
  destruct err; intros w; apply quiet_refl.
Qed.

Lemma keeps_quiet_log trigger source dest userInfoId :
  keeps quiet (log trigger source dest userInfoId).
Proof.
  unfold log.
  apply keeps_bind; [exact quiet_trans|intros w; apply quiet_refl|intros sm].
  apply keeps_bind; [exact quiet_trans| |intros id].
  { unfold reflect_ID. destruct (Fields sm !! "ID") as [[s|n|z|b]|];
      intros w; apply quiet_refl. }
  apply keeps_bind; [exact quiet_trans|apply keeps_quiet_on_db|intros err].
  apply keeps_bind; [exact quiet_trans|by apply keeps_quiet_emit|intros _].
  destruct err; intros w; apply quiet_refl.
Qed.

(** What follows the write of the state column: the after-hook, the
    print and the audit record. *)
Lemma keeps_quiet_after_persist afterFunc trigger src dest userInfoId args :
  keeps quiet
    (let* _ := run_hook CallAfter afterFunc args in
     let* _ := emit (CallPrintln src dest) in
     log trigger src dest userInfoId).
Proof.
  apply keeps_bind; [exact quiet_trans|by apply keeps_quiet_run_hook|intros _].
  apply keeps_bind; [exact quiet_trans|by apply keeps_quiet_emit|intros _].
  apply keeps_quiet_log.
Qed.

Lemma keeps_wrote_persist dest : keeps (wrote dest) (persist dest).
Proof.
  intros w. destruct w as [sm d cs]. rewrite persist_result.
  destruct (tx_Update _ _ _ _ d) as [err d']. by right.
Qed.

Lemma updates_called_if_present (called : list any -> Call DB)
    (entry : option (iface DB)) args :
  (forall a, updates [called a] = []) ->
  updates (called_if_present called entry args) = [].
Proof. intros Hcalled. destruct entry; [apply Hcalled|done]. Qed.

Lemma audit_records_called_if_present (called : list any -> Call DB)
    (entry : option (iface DB)) args :
  (forall a, audit_records [called a] = []) ->
  audit_records (called_if_present called entry args) = [].
Proof. intros Hcalled. destruct entry; [apply Hcalled|done]. Qed.

(** ** Properties of [Do] *)

(** C8: a trigger that is not a key of the trigger table makes [Do] return
    the error "can not do trigger: <trigger>" (the unknown-trigger
    error); the entity, the handle and the calls made (hooks, writes,
    audit records) are left as they were. *)
Theorem Do_unknown_trigger trigger userInfoId args (w : World DB) :
  Triggers (stater w) !! trigger = None ->
  Do trigger userInfoId args w
  = (Return (Some (errors_New ("can not do trigger: " +:+ trigger))), w).
Proof.
  intros Hnone. unfold Do, bind, get_stater, return_. by rewrite Hnone.
Qed.

(** C9: a declared trigger whose source list does not contain the current
    state makes [Do] return the error
    "can not do trigger: <trigger>, current state: <state>" (the
    invalid-transition error, naming the trigger and the state); the
    entity, the handle and the calls made (guard, hooks, writes, audit
    records) are left as they were. *)
Theorem Do_invalid_transition trigger userInfoId args (w : World DB) config source dest :
  Triggers (stater w) !! trigger = Some config ->
  config !! "source" = Some (IVal (AnyString source)) ->
  config !! "dest" = Some (IVal (AnyString dest)) ->
  ~ In (GetState (stater w)) (Split source ",") ->
  Do trigger userInfoId args w
  = (Return (Some (errors_New ("can not do trigger: " +:+ trigger +:+
                               ", current state: " +:+ GetState (stater w)))), w).
Proof.
  intros Hdecl Hsrc Hdst Hnotin.
  rewrite (Do_declared _ _ _ _ config source dest) by done.
  by rewrite (scan_sources_not_member _ _ Hnotin).
Qed.

(** C3: when the trigger is declared, the current state is one of its
    sources and the guard returns false, [Do] returns nil, the entity is
    as it was, the only call made is the one of the guard (so neither hook
    is invoked and nothing is written), and no audit record is added. *)
Theorem Do_guard_rejects trigger userInfoId args sm d cs config source dest guard d' :
  Triggers sm !! trigger = Some config ->
  config !! "source" = Some (IVal (AnyString source)) ->
  config !! "dest" = Some (IVal (AnyString dest)) ->
  In (GetState sm) (Split source ",") ->
  config !! "condition" = Some (IFuncBool guard) ->
  guard d args = (false, d') ->
  exists w',
    Do trigger userInfoId args {| stater := sm; db := d; calls := cs |} = (Return None, w') /\
    stater w' = sm /\
    calls w' = cs ++ [CallCondition args] /\
    hook_calls (calls w') = hook_calls cs /\
    updates (calls w') = updates cs /\
    audit_records (calls w') = audit_records cs.
Proof.
  intros Hdecl Hsrc Hdst Hin Hcond Hfalse.
  rewrite (Do_declared _ _ _ _ config source dest) by done. simpl stater.
  rewrite (scan_sources_member _ _ Hin). simpl negb. cbv iota beta.
  rewrite Hcond.
  unfold bind at 1, run_condition, bind, assert_func_bool, ret, emit, on_db, return_.
  simpl. rewrite Hfalse. simpl.
  eexists. split; [reflexivity|]. simpl.
  unfold hook_calls, updates, audit_records.
  rewrite List.filter_app, List.filter_app, flat_map_app. simpl.
  by rewrite !app_nil_r.
Qed.

(** C5 (amended): when the before-hook of a passing trigger returns an
    error, [Do] returns that very error, with nothing added to it; the
    entity is as it was, nothing is written through the handle and no
    audit record is added. *)
Theorem Do_before_hook_fails trigger userInfoId args sm d0 cs config source dest
    hook e d1 d2 :
  Triggers sm !! trigger = Some config ->
  config !! "source" = Some (IVal (AnyString source)) ->
  config !! "dest" = Some (IVal (AnyString dest)) ->
  In (GetState sm) (Split source ",") ->
  guard_passes (config !! "condition") args d0 d1 ->
  config !! "before" = Some (IFuncError hook) ->
  hook d1 args = (Some e, d2) ->
  exists w',
    Do trigger userInfoId args {| stater := sm; db := d0; calls := cs |}
      = (Return (Some e), w') /\
    stater w' = sm /\
    calls w' = (cs ++ called_if_present CallCondition (config !! "condition") args)
               ++ [CallBefore args] /\
    updates (calls w') = updates cs /\
    audit_records (calls w') = audit_records cs.
Proof.
  intros Hdecl Hsrc Hdst Hin Hguard Hbefore Hfail.
  rewrite (Do_declared _ _ _ _ config source dest) by done. simpl stater.
  rewrite (scan_sources_member _ _ Hin). simpl negb. cbv iota beta.
  unfold bind at 1. rewrite (run_condition_passes _ _ _ _ _ _ Hguard).
  unfold bind at 1. rewrite Hbefore, (run_hook_fails _ _ _ _ _ _ _ _ Hfail).
  eexists. split; [reflexivity|]. simpl. repeat split.
  - rewrite !updates_app, updates_called_if_present by done. simpl.
    by rewrite !app_nil_r.
  - rewrite !audit_records_app, audit_records_called_if_present by done. simpl.
    by rewrite !app_nil_r.
Qed.

(** C4 (amended): when the after-hook returns an error, [Do] returns that
    very error, with nothing added to it; the state of the entity is
    already [dest], the state column has been written through the handle,
    and no audit record is added. *)
Theorem Do_after_hook_fails trigger userInfoId args sm d0 cs config source dest
    hook e d1 d2 d3 d4 :
  Triggers sm !! trigger = Some config ->
  config !! "source" = Some (IVal (AnyString source)) ->
  config !! "dest" = Some (IVal (AnyString dest)) ->
  In (GetState sm) (Split source ",") ->
  guard_passes (config !! "condition") args d0 d1 ->
  hook_succeeds (config !! "before") args d1 d2 ->
  tx_Update (SetState dest sm) [clause_Associations] "state" dest d2 = (None, d3) ->
  config !! "after" = Some (IFuncError hook) ->
  hook d3 args = (Some e, d4) ->
  exists w',
    Do trigger userInfoId args {| stater := sm; db := d0; calls := cs |}
      = (Return (Some e), w') /\
    GetState (stater w') = dest /\
    updates (calls w') = updates cs ++ [CallUpdate (SetState dest sm) [clause_Associations] "state" dest None] /\
    audit_records (calls w') = audit_records cs.
Proof.
  intros Hdecl Hsrc Hdst Hin Hguard Hbefore Hupd Hafter Hfail.
  rewrite (Do_declared _ _ _ _ config source dest) by done. simpl stater.
  rewrite (scan_sources_member _ _ Hin). simpl negb. cbv iota beta.
  unfold bind at 1. rewrite (run_condition_passes _ _ _ _ _ _ Hguard).
  unfold bind at 1. rewrite (run_hook_succeeds _ _ _ _ _ _ _ Hbefore).
  unfold bind at 1. rewrite persist_result, Hupd.
  unfold bind at 1. rewrite Hafter, (run_hook_fails _ _ _ _ _ _ _ _ Hfail).
  eexists. split; [reflexivity|]. simpl. repeat split.
  - rewrite !updates_app, !updates_called_if_present by done. simpl.
    by rewrite !app_nil_r.
  - rewrite !audit_records_app, !audit_records_called_if_present by done. simpl.
    by rewrite !app_nil_r.
Qed.

(** C6: in a [Do] call that reaches the persistence step, the state is
    set in memory and the handle is asked for one write: the update of
    column "state" of the entity to [dest], with the associations
    omitted.  [Do] goes on from the state [d3] in which that update
    leaves the handle: the entity is [SetState dest sm] (every field
    but [State] as before) and no other column is written; when the
    update returns an error, [Do] returns it at once, the handle stays
    in [d3], the state in memory is still [dest], and no audit record
    is added. *)
Theorem Do_persists_state_only trigger userInfoId args sm d0 cs config source dest
    d1 d2 err d3 :
  Triggers sm !! trigger = Some config ->
  config !! "source" = Some (IVal (AnyString source)) ->
  config !! "dest" = Some (IVal (AnyString dest)) ->
  In (GetState sm) (Split source ",") ->
  guard_passes (config !! "condition") args d0 d1 ->
  hook_succeeds (config !! "before") args d1 d2 ->
  tx_Update (SetState dest sm) [clause_Associations] "state" dest d2 = (err, d3) ->
  let written :=
    {| stater := SetState dest sm; db := d3;
       calls := ((cs ++ called_if_present CallCondition (config !! "condition") args)
                 ++ called_if_present CallBefore (config !! "before") args)
                ++ [CallUpdate (SetState dest sm) [clause_Associations] "state" dest err] |} in
  exists r w' new,
    Do trigger userInfoId args {| stater := sm; db := d0; calls := cs |} = (r, w') /\
    (r, w') = match err with
              | Some e => (Return (Some e), written)
              | None =>
                  after_persist config trigger (List.last (Split source ",") "") dest
                    userInfoId args written
              end /\
    stater w' = SetState dest sm /\
    calls w' = cs ++ new /\
    updates new = [CallUpdate (SetState dest sm) [clause_Associations] "state" dest err] /\
    (forall e, err = Some e ->
       r = Return (Some e) /\ GetState (stater w') = dest /\ db w' = d3 /\
       audit_records new = []).
Proof.
  intros Hdecl Hsrc Hdst Hin Hguard Hbefore Hupd written.
  rewrite (Do_declared _ _ _ _ config source dest) by done. simpl stater.
  rewrite (scan_sources_member _ _ Hin). simpl negb. cbv iota beta.
  unfold bind at 1. rewrite (run_condition_passes _ _ _ _ _ _ Hguard).
  unfold bind at 1. rewrite (run_hook_succeeds _ _ _ _ _ _ _ Hbefore).
  unfold bind at 1. rewrite persist_result, Hupd. fold written.
  destruct err as [e|].
  - eexists _, _, _. split; [reflexivity|]. split; [reflexivity|]. simpl.
    split; [done|]. split; [by rewrite <- !app_assoc|].
    split.
    + rewrite !updates_app, !updates_called_if_present by done. done.
    + intros e' [= <-]. split; [done|]. split; [done|]. split; [done|].
      rewrite !audit_records_app, !audit_records_called_if_present by done. done.
  - pose proof (keeps_quiet_after_persist (config !! "after") trigger
                  (List.last (Split source ",") "") dest userInfoId args written) as Hq.
    change (bind (run_hook CallAfter (config !! "after") args) _ written)
      with (after_persist config trigger (List.last (Split source ",") "") dest
              userInfoId args written) in *.
    destruct (after_persist config trigger (List.last (Split source ",") "") dest
                userInfoId args written) as [r w'] eqn:Htail.
    destruct Hq as [Hst (new & Hcalls & Hnew)]. cbn [stater calls snd written] in Hst, Hcalls.
    unfold written in Hst, Hcalls. cbn [stater calls] in Hst, Hcalls.
    eexists r, w', _. split; [reflexivity|]. split; [reflexivity|].
    split; [done|]. split; [rewrite Hcalls, <- !app_assoc; reflexivity|].
    split; [|discriminate].
    rewrite !updates_app, !updates_called_if_present, Hnew by done. done.
Qed.

(** Whatever [Do] returns, the entity is as it was or has had its state
    set to the "dest" entry of the trigger. *)
Lemma Do_wrote trigger userInfoId args w :
  stater (Do trigger userInfoId args w).2 = stater w \/
  exists config dest,
    Triggers (stater w) !! trigger = Some config /\
    config !! "dest" = Some (IVal (AnyString dest)) /\
    stater (Do trigger userInfoId args w).2 = SetState dest (stater w).
Proof.
  destruct (Triggers (stater w) !! trigger) as [config|] eqn:Hdecl;
    [|left; by rewrite Do_unknown_trigger].
  destruct (config !! "source") as [[[source|n|z|b]|f|f]|] eqn:Hsrc;
    try (left; unfold Do, bind, get_stater; rewrite Hdecl, Hsrc; reflexivity).
  destruct (config !! "dest") as [[[dest|n|z|b]|f|f]|] eqn:Hdst;
    try (left; unfold Do, bind, get_stater; rewrite Hdecl, Hsrc, Hdst; reflexivity).
  rewrite (Do_declared _ _ _ _ config source dest) by done.
  destruct (scan_sources _ _) as [canDo src]. destruct canDo; simpl; [|by left].
  assert (keeps (wrote dest)
            (let* _ := run_condition (config !! "condition") args in
             let* _ := run_hook CallBefore (config !! "before") args in
             let* _ := persist dest in
             let* _ := run_hook CallAfter (config !! "after") args in
             let* _ := emit (CallPrintln src dest) in
             log trigger src dest userInfoId)) as Hkeeps.
  { apply keeps_bind; [apply wrote_trans| |intros _].
    { eapply keeps_weaken; [apply quiet_wrote|apply keeps_quiet_run_condition]. }
    apply keeps_bind; [apply wrote_trans| |intros _].
    { eapply keeps_weaken; [apply quiet_wrote|by apply keeps_quiet_run_hook]. }
    apply keeps_bind; [apply wrote_trans|apply keeps_wrote_persist|intros _].
    eapply keeps_weaken; [apply quiet_wrote|apply keeps_quiet_after_persist]. }
  destruct (Hkeeps w) as [Hsame|Hset]; [by left|right; by exists config, dest].
Qed.

(** C7: when the state of an entity and every "dest" entry of its
    trigger table are among its [States], the state is still among them
    after any sequence of [Do] calls, whatever each call returns. *)
Theorem state_always_valid requests w :
  state_valid (stater w) ->
  dests_valid (stater w) ->
  state_valid (stater (Do_all requests w)).
Proof.
  revert w. induction requests as [|[[trigger userInfoId] args] requests IH];
    intros w Hstate Hdests; [done|].
  simpl. destruct (Do_wrote trigger userInfoId args w) as [Hsame|(config & dest & Hdecl & Hdst & Hset)].
  - apply IH; by rewrite Hsame.
  - apply IH; rewrite Hset.
    + unfold state_valid. simpl. by eapply Hdests.
    + exact Hdests.
Qed.

(** ** Absence of panics *)

Lemma ends_in_bind {A B} (Q : Res B -> Prop) (m : @M DB A) (k : A -> @M DB B) :
  ends_in no_panic m -> (forall a, ends_in Q (k a)) ->
  (forall e, Q (Return e)) ->
  ends_in Q (bind m k).
Proof.
  intros Hm Hk HQ w Hid. unfold bind. destruct (Hm w Hid) as [Hr Hid'].
  destruct (m w) as [[a|e|msg] w1]; simpl in *; [by apply Hk|by split|done].
Qed.

Lemma ends_in_emit c : ends_in no_panic (emit c).
Proof. by intros w Hid. Qed.

Lemma ends_in_on_db {A} (f : DB -> A * DB) : ends_in no_panic (on_db f).
Proof. intros w Hid. unfold on_db. by destruct (f (db w)). Qed.

Lemma ends_in_run_condition conditionFunc args :
  is_guard_or_nil conditionFunc = true ->
  ends_in no_panic (run_condition conditionFunc args).
Proof.
  intros Hty. destruct conditionFunc as [[v|f|f]|]; try discriminate; [|by intros w Hid].
  intros w Hid. unfold run_condition, bind, assert_func_bool, ret, emit, on_db, return_.
  simpl. destruct (f (db w) args) as [[|] d']; by simpl.
Qed.

Lemma ends_in_run_hook (called : list any -> Call DB) hookFunc args :
  is_hook_or_nil hookFunc = true ->
  ends_in no_panic (run_hook called hookFunc args).
Proof.
  intros Hty. destruct hookFunc as [[v|f|f]|]; try discriminate; [|by intros w Hid].
  intros w Hid. unfold run_hook, bind, assert_func_error, ret, emit, on_db, return_.
  simpl. destruct (f (db w) args) as [[e|] d']; by simpl.
Qed.

Lemma ends_in_persist dest : ends_in no_panic (persist dest).
Proof.
  intros [sm d cs] Hid. rewrite persist_result.
  destruct (tx_Update _ _ _ _ d) as [[e|] d']; by simpl.
Qed.

Lemma ends_in_log trigger source dest userInfoId :
  ends_in returned (log trigger source dest userInfoId).
Proof.
  intros [sm d cs] Hid. simpl in Hid. unfold has_uint_ID in Hid.
  destruct (Fields sm !! "ID") as [[s|id|z|b]|] eqn:Eid; try discriminate.
  rewrite (log_result _ _ _ _ _ _ _ id Eid). simpl.
  destruct (tx_Create _ d) as [err d']. simpl. unfold has_uint_ID. by rewrite Eid.
Qed.

(** C10: when the entries of the trigger that [Do] reads have the types it
    asserts (strings for "source" and "dest"; nil or a function of the
    guard type for "condition"; nil or a function of the hook type for
    "before" and "after") and the entity has an unsigned field "ID",
    [Do] returns: no assertion panics. *)
Theorem Do_returns trigger userInfoId args w :
  (forall config, Triggers (stater w) !! trigger = Some config -> well_typed config = true) ->
  has_uint_ID (stater w) = true ->
  exists err, (Do trigger userInfoId args w).1 = Return err.
Proof.
  intros Htyped Hid.
  destruct (Triggers (stater w) !! trigger) as [config|] eqn:Hdecl;
    [|rewrite Do_unknown_trigger by done; by eexists].
  specialize (Htyped config eq_refl). unfold well_typed in Htyped.
  apply andb_prop in Htyped as [Htyped Hafter].
  apply andb_prop in Htyped as [Htyped Hbefore].
  apply andb_prop in Htyped as [Htyped Hcond].
  apply andb_prop in Htyped as [Hsrc Hdst].
  destruct (config !! "source") as [[[source|?|?|?]|?|?]|] eqn:Esrc; try discriminate.
  destruct (config !! "dest") as [[[dest|?|?|?]|?|?]|] eqn:Edst; try discriminate.
  rewrite (Do_declared _ _ _ _ config source dest) by done.
  destruct (scan_sources _ _) as [canDo src]. destruct canDo; simpl; [|by eexists].
  assert (ends_in returned
            (let* _ := run_condition (config !! "condition") args in
             let* _ := run_hook CallBefore (config !! "before") args in
             let* _ := persist dest in
             let* _ := run_hook CallAfter (config !! "after") args in
             let* _ := emit (CallPrintln src dest) in
             log trigger src dest userInfoId)) as Hends.
  { apply ends_in_bind; [by apply ends_in_run_condition|intros _|done].
    apply ends_in_bind; [by apply ends_in_run_hook|intros _|done].
    apply ends_in_bind; [apply ends_in_persist|intros _|done].
    apply ends_in_bind; [by apply ends_in_run_hook|intros _|done].
    apply ends_in_bind; [apply ends_in_emit|intros _|done].
    apply ends_in_log. }
  destruct (Hends w Hid) as [Hret _].
  match goal with |- context [(?t).1] => destruct t as [[a|err|msg] w'] end;
    simpl in *; [done|by eexists|done].
Qed.

(** A declared trigger whose "source" or "dest" entry is not a string
    makes [Do] panic before anything is done. *)
Lemma Do_panics_on_untyped_source trigger userInfoId args w config :
  Triggers (stater w) !! trigger = Some config ->
  is_string (config !! "source") = false ->
  exists msg, Do trigger userInfoId args w = (Panic msg, w).
Proof.
  intros Hdecl Hsrc. unfold Do, bind, get_stater. rewrite Hdecl.
  destruct (config !! "source") as [[[source|?|?|?]|?|?]|]; try discriminate;
    by eexists.
Qed.

Lemma Do_panics_on_untyped_dest trigger userInfoId args w config :
  Triggers (stater w) !! trigger = Some config ->
  is_string (config !! "source") = true ->
  is_string (config !! "dest") = false ->
  exists msg, Do trigger userInfoId args w = (Panic msg, w).
Proof.
  intros Hdecl Hsrc Hdst. unfold Do, bind, get_stater. rewrite Hdecl.
  destruct (config !! "source") as [[[source|?|?|?]|?|?]|]; try discriminate.
  destruct (config !! "dest") as [[[dest|?|?|?]|?|?]|]; try discriminate;
    by eexists.
Qed.

(** Without an unsigned field "ID", [log] panics before it reaches
    the handle. *)
Lemma log_panics_without_uint_ID trigger source dest userInfoId w :
  has_uint_ID (stater w) = false ->
  exists msg, log trigger source dest userInfoId w = (Panic msg, w).
Proof.
  intros Hid. unfold log, bind, get_stater, reflect_ID. unfold has_uint_ID in Hid.
  destruct (Fields (stater w) !! "ID") as [[?|?|?|?]|]; try discriminate; by eexists.
Qed.

(** ** [AvailableTriggers] *)

Lemma matching_entries_In sm trigger pieces a :
  In a (matching_entries sm trigger pieces) <->
  a = {| TranslatedTrigger := Lang_Sprintf (StructName sm +:+ ":" +:+ trigger);
         Trigger := trigger |} /\ In (GetState sm) pieces.
Proof.
  unfold matching_entries. rewrite in_flat_map. split.
  - intros (src & Hin & Ha). destruct (String.eqb src (GetState sm)) eqn:E; [|done].
    apply String.eqb_eq in E. subst src. destruct Ha as [<-|[]]. by split.
  - intros [-> Hin]. exists (GetState sm). split; [done|].
    rewrite String.eqb_refl. by left.
Qed.

Lemma count_trigger_app trigger l1 l2 :
  count_trigger trigger (l1 ++ l2) = count_trigger trigger l1 + count_trigger trigger l2.
Proof. unfold count_trigger. by rewrite List.filter_app, length_app. Qed.

Lemma count_trigger_matching sm trigger pieces :
  count_trigger trigger (matching_entries sm trigger pieces)
  = length (List.filter (fun piece => String.eqb piece (GetState sm)) pieces).
Proof.
  unfold count_trigger, matching_entries.
  induction pieces as [|piece pieces IH]; [done|]. simpl.
  destruct (String.eqb piece (GetState sm)); simpl; [|exact IH].
  rewrite String.eqb_refl. simpl. by rewrite IH.
Qed.

Lemma count_trigger_other sm trigger trigger' pieces :
  trigger' <> trigger ->
  count_trigger trigger (matching_entries sm trigger' pieces) = 0.
Proof.
  intros Hne. unfold count_trigger, matching_entries.
  induction pieces as [|piece pieces IH]; [done|]. simpl.
  destruct (String.eqb piece (GetState sm)); simpl; [|exact IH].
  apply String.eqb_neq in Hne. by rewrite Hne.
Qed.

Lemma count_trigger_absent sm trigger (entries : list (string * gmap string (iface DB))) :
  trigger ∉ entries.*1 ->
  count_trigger trigger (flat_map (entry_triggers sm) entries) = 0.
Proof.
  induction entries as [|[trigger' config] entries IH]; [done|].
  intros Hnotin. apply not_elem_of_cons in Hnotin as [Hne Hnotin]. simpl in Hne.
  simpl. rewrite count_trigger_app, IH by done.
  unfold entry_triggers. simpl. destruct (sourceStates config); [|done].
  by rewrite count_trigger_other.
Qed.

Lemma count_trigger_declared sm trigger config pieces
    (entries : list (string * gmap string (iface DB))) :
  NoDup entries.*1 ->
  (trigger, config) ∈ entries ->
  sourceStates config = Some pieces ->
  count_trigger trigger (flat_map (entry_triggers sm) entries)
  = length (List.filter (fun piece => String.eqb piece (GetState sm)) pieces).
Proof.
  intros Hnodup Hin Hpieces.
  induction entries as [|[trigger' config'] entries IH]; [by apply elem_of_nil in Hin|].
  apply NoDup_cons in Hnodup as [Hfresh Hnodup]. simpl in Hfresh.
  simpl. rewrite count_trigger_app.
  apply elem_of_cons in Hin as [[= <- <-]|Hin].
  - rewrite count_trigger_absent by done.
    unfold entry_triggers. simpl. rewrite Hpieces, count_trigger_matching. lia.
  - rewrite IH by done.
    assert (trigger' <> trigger) as Hne.
    { intros ->. apply Hfresh. apply list_elem_of_fmap. by exists (trigger, config). }
    unfold entry_triggers. simpl. destruct (sourceStates config'); [|done].
    by rewrite count_trigger_other.
Qed.

Lemma filter_eqb_absent (state : string) pieces :
  ~ In state pieces ->
  List.filter (fun piece => String.eqb piece state) pieces = [].
Proof.
  induction pieces as [|piece pieces IH]; intros Hnotin; [done|]. simpl.
  destruct (String.eqb piece state) eqn:E.
  - apply String.eqb_eq in E. subst piece. exfalso. apply Hnotin. by left.
  - apply IH. intros Hin. apply Hnotin. by right.
Qed.

Lemma filter_eqb_once (state : string) pieces :
  NoDup pieces -> In state pieces ->
  length (List.filter (fun piece => String.eqb piece state) pieces) = 1.
Proof.
  induction pieces as [|piece pieces IH]; intros Hnodup Hin; [done|].
  apply NoDup_cons in Hnodup as [Hfresh Hnodup]. simpl.
  destruct (String.eqb piece state) eqn:E.
  - apply String.eqb_eq in E. subst piece. simpl. f_equal.
    rewrite filter_eqb_absent; [done|].
    intros Hstate. apply Hfresh. by apply list_elem_of_In.
  - apply String.eqb_neq in E. destruct Hin as [->|Hin]; [done|]. by apply IH.
Qed.

Lemma AvailableTriggers_along_typed (entries : list (string * gmap string (iface DB)))
    sm triggers :
  (forall entry, entry ∈ entries -> is_string (entry.2 !! "source") = true) ->
  AvailableTriggers_along entries sm triggers
  = Val (triggers ++ flat_map (entry_triggers sm) entries).
Proof.
  revert triggers. induction entries as [|[trigger config] entries IH];
    intros triggers Htyped; simpl.
  - by rewrite app_nil_r.
  - pose proof (Htyped (trigger, config) (list_elem_of_here _ _)) as Hsrc. simpl in Hsrc.
    unfold entry_triggers, sourceStates. simpl.
    destruct (config !! "source") as [[[source|?|?|?]|?|?]|]; try discriminate.
    rewrite IH, <- app_assoc; [done|].
    intros entry Hin. apply Htyped. by apply list_elem_of_further.
Qed.

(** C2 (amended): on a table whose "source" entries are strings,
    [AvailableTriggers] returns a slice in which a trigger occurs exactly
    when it is declared and its source list contains the current state,
    each entry carries the label printed for "<type name>:<trigger>",
    and such a trigger has one entry when its source list repeats no
    state; the order is the one in which [range] visits the table, so
    the slice is fixed only up to a permutation. *)
Theorem AvailableTriggers_entries sm r :
  (forall trigger config,
     Triggers sm !! trigger = Some config -> is_string (config !! "source") = true) ->
  AvailableTriggers sm r ->
  exists l,
    r = Val l /\
    (forall trigger,
       (exists a, In a l /\ Trigger a = trigger) <->
       (exists config pieces,
          Triggers sm !! trigger = Some config /\
          sourceStates config = Some pieces /\ In (GetState sm) pieces)) /\
    (forall a, In a l ->
       TranslatedTrigger a = Lang_Sprintf (StructName sm +:+ ":" +:+ Trigger a)) /\
    (forall trigger config pieces,
       Triggers sm !! trigger = Some config ->
       sourceStates config = Some pieces ->
       NoDup pieces -> In (GetState sm) pieces ->
       count_trigger trigger l = 1) /\
    l ≡ₚ flat_map (entry_triggers sm) (map_to_list (Triggers sm)).
Proof.
  intros Htyped (entries & Horder & ->). unfold range_order in Horder.
  assert (forall trigger config,
            (trigger, config) ∈ entries <-> Triggers sm !! trigger = Some config) as Hentries.
  { intros trigger config. rewrite Horder. apply elem_of_map_to_list. }
  rewrite AvailableTriggers_along_typed.
  2: { intros [trigger config] Hin. simpl. eapply Htyped. by apply Hentries. }
  simpl. eexists. split; [reflexivity|]. repeat split.
  - intros (a & Hin & Ha). apply in_flat_map in Hin as ([trigger' config] & Hentry & Hin).
    unfold entry_triggers in Hin. simpl in Hin.
    destruct (sourceStates config) as [pieces|] eqn:Hpieces; [|done].
    apply matching_entries_In in Hin as [-> Hstate]. simpl in Ha. subst trigger'.
    exists config, pieces. repeat split; [|done..].
    apply Hentries. by apply list_elem_of_In.
  - intros (config & pieces & Hdecl & Hpieces & Hstate).
    exists {| TranslatedTrigger := Lang_Sprintf (StructName sm +:+ ":" +:+ trigger);
              Trigger := trigger |}.
    split; [|reflexivity]. apply in_flat_map. exists (trigger, config). split.
    + apply list_elem_of_In. by apply Hentries.
    + unfold entry_triggers. simpl. rewrite Hpieces.
      apply matching_entries_In. split; [reflexivity|done].
  - intros a Hin. apply in_flat_map in Hin as ([trigger' config] & Hentry & Hin).
    unfold entry_triggers in Hin. simpl in Hin.
    destruct (sourceStates config) as [pieces|]; [|done].
    by apply matching_entries_In in Hin as [-> _].
  - intros trigger config pieces Hdecl Hpieces Hnodup Hstate.
    rewrite (count_trigger_declared sm trigger config pieces entries);
      [by apply filter_eqb_once| |by apply Hentries|done].
    rewrite Horder. apply NoDup_fst_map_to_list.
  - by apply Permutation_flat_map.
Qed.

End Properties.

(** * Further properties of the engine *)

Section Outcomes.

Context {DB : Type} `{!Handle DB} `{!Printer}.

Implicit Types (d : DB) (sm : Stater DB) (w : World DB) (cs new : list (Call DB)).
Implicit Types (config : gmap string (iface DB)).

Local Notation "'let*' x ':=' m 'in' k" := (bind m (fun x => k))
  (at level 10, x name, m at level 100, k at level 200).

(** ** The ways a call of [Do] can end *)

Lemma Do_after_validation trigger userInfoId args w config source dest :
  Triggers (stater w) !! trigger = Some config ->
  config !! "source" = Some (IVal (AnyString source)) ->
  config !! "dest" = Some (IVal (AnyString dest)) ->
  In (GetState (stater w)) (Split source ",") ->
  Do trigger userInfoId args w
  = after_validation config trigger (List.last (Split source ",") "") dest
      userInfoId args w.
Proof.
  intros Hdecl Hsrc Hdst Hin.
  rewrite (Do_declared _ _ _ _ config source dest) by done.
  by rewrite (scan_sources_member _ _ Hin).
Qed.

(** The steps after validation either stop before the state is set or
    set it and write the state column. *)
Lemma after_validation_outcome config trigger src dest userInfoId args sm d cs :
  exists r w' new,
    after_validation config trigger src dest userInfoId args
      {| stater := sm; db := d; calls := cs |} = (r, w') /\
    calls w' = cs ++ new /\
    (forall a, r <> Val a) /\
    ((stater w' = sm /\ stopped_early args r new) \/
     (stater w' = SetState dest sm /\ went_through sm trigger dest userInfoId r new)).
Proof.
  unfold after_validation, bind, run_condition, run_hook, persist, log, reflect_ID,
    bind, assert_func_bool, assert_func_error, emit, on_db, set_state, get_stater,
    return_, ret, panic, stopped_early, went_through.
  destruct (config !! "condition") as [[?|guard|?]|];
  destruct (config !! "before") as [[?|before|?]|];
  destruct (config !! "after") as [[?|after|?]|];
  simpl.
  all: repeat (match goal with
               | |- context [?f ?x ?a] =>
                   is_var f; destruct (f x a) as [[] ?]
               | |- context [tx_Update ?m ?o ?c ?v ?x] =>
                   destruct (tx_Update m o c v x) as [[] ?]
               | |- context [tx_Create ?rec ?x] =>
                   destruct (tx_Create rec x) as [[] ?]
               | |- context [Fields ?s !! "ID"] =>
                   destruct (Fields s !! "ID") as [[?|id|?|?]|] eqn:Eid
               end; simpl).
  all: eexists _, _, _; split; [reflexivity|]; simpl.
  all: split; [rewrite <- ?app_assoc; simpl; try reflexivity;
               try (symmetry; apply app_nil_r)|].
  all: split; [discriminate|].
  all: first
    [ left; split; [reflexivity|];
      split; [reflexivity|]; split; [reflexivity|];
      split; [intros Hr; first [discriminate Hr|reflexivity]
             |intros err Hr; first [discriminate Hr|discriminate]]
    | right; split; [reflexivity|]; eexists; split; [reflexivity|];
      first [ left; split; [reflexivity|discriminate]
            | right; eexists _, _; repeat split; reflexivity ] ].
Qed.

(** A call of [Do] is turned down with the world as it was, or stops
    after validation before the state is set, or sets the state. *)
Lemma Do_outcome trigger userInfoId args w :
  exists r w' new,
    Do trigger userInfoId args w = (r, w') /\
    calls w' = calls w ++ new /\
    (forall a, r <> Val a) /\
    ((w' = w /\ new = [] /\ r <> Return None /\ ~ validated (stater w) trigger) \/
     (validated (stater w) trigger /\ stater w' = stater w /\ stopped_early args r new) \/
     (validated (stater w) trigger /\
      exists config dest,
        Triggers (stater w) !! trigger = Some config /\
        config !! "dest" = Some (IVal (AnyString dest)) /\
        stater w' = SetState dest (stater w) /\
        went_through (stater w) trigger dest userInfoId r new)).
Proof.
  assert (forall r, (exists msg, r = Panic msg) \/ (exists e, r = Return (Some e)) ->
            ~ validated (stater w) trigger ->
            Do trigger userInfoId args w = (r, w) ->
            exists (r0 : Res unit) w' new,
              Do trigger userInfoId args w = (r0, w') /\
              calls w' = calls w ++ new /\
              (forall a, r0 <> Val a) /\
              ((w' = w /\ new = [] /\ r0 <> Return None /\ ~ validated (stater w) trigger) \/
               (validated (stater w) trigger /\ stater w' = stater w /\
                stopped_early args r0 new) \/
               (validated (stater w) trigger /\
                exists config dest,
                  Triggers (stater w) !! trigger = Some config /\
                  config !! "dest" = Some (IVal (AnyString dest)) /\
                  stater w' = SetState dest (stater w) /\
                  went_through (stater w) trigger dest userInfoId r0 new))) as Hturned.
  { intros r Hr Hnot Hdo. exists r, w, []. split; [done|].
    split; [by rewrite app_nil_r|].
    split; [destruct Hr as [[msg ->]|[e ->]]; discriminate|].
    left. repeat split; [|done]. destruct Hr as [[msg ->]|[e ->]]; discriminate. }
  destruct (Triggers (stater w) !! trigger) as [config|] eqn:Hdecl.
  2: { eapply Hturned; [right; by eexists| |].
       - intros (c & s & t & Hc & _). congruence.
       - unfold Do, bind, get_stater, return_. by rewrite Hdecl. }
  destruct (config !! "source") as [[[source|?|?|?]|?|?]|] eqn:Hsrc;
    try (eapply Hturned;
         [left; by eexists
         |intros (c & s & t & Hc & Hs & _); congruence
         |unfold Do, bind, get_stater; rewrite Hdecl, Hsrc; reflexivity]).
  destruct (config !! "dest") as [[[dest|?|?|?]|?|?]|] eqn:Hdst;
    try (eapply Hturned;
         [left; by eexists
         |intros (c & s & t & Hc & Hs & Ht & _); congruence
         |unfold Do, bind, get_stater; rewrite Hdecl, Hsrc, Hdst; reflexivity]).
  destruct (existsb (fun piece => String.eqb piece (GetState (stater w)))
              (Split source ",")) eqn:Hscan.
  - apply existsb_eqb_In in Hscan.
    assert (validated (stater w) trigger) as Hval by (by exists config, source, dest).
    rewrite (Do_after_validation _ _ _ _ config source dest) by done.
    destruct w as [sm d cs]. simpl in *.
    destruct (after_validation_outcome config trigger (List.last (Split source ",") "")
                dest userInfoId args sm d cs)
      as (r & w' & new & Hrun & Hcalls & Hval' & [[Hst Hearly]|[Hst Hthrough]]).
    + exists r, w', new. split; [done|]. split; [done|]. split; [done|].
      right. left. by split.
    + exists r, w', new. split; [done|]. split; [done|]. split; [done|].
      right. right. split; [done|]. by exists config, dest.
  - eapply Hturned; [right; by eexists| |].
    + intros (c & s & t & Hc & Hs & Ht & Hin).
      assert (c = config) by congruence. subst c.
      assert (s = source) by congruence. subst s.
      apply existsb_eqb_In in Hin. congruence.
    + rewrite (Do_declared _ _ _ _ config source dest) by done.
      rewrite scan_sources_eq, Hscan. reflexivity.
Qed.

(** X1: whatever it returns, a call of [Do] only adds to the calls made,
    and either leaves the entity as it was and writes no column, or sets
    its state, and nothing else of it, to the "dest" entry of the trigger
    and issues exactly one update, of column "state" to that value. *)
Theorem Do_sets_state_with_update trigger userInfoId args w :
  exists new,
    calls (Do trigger userInfoId args w).2 = calls w ++ new /\
    ((stater (Do trigger userInfoId args w).2 = stater w /\ updates new = []) \/
     (exists config dest err,
        Triggers (stater w) !! trigger = Some config /\
        config !! "dest" = Some (IVal (AnyString dest)) /\
        stater (Do trigger userInfoId args w).2 = SetState dest (stater w) /\
        updates new = [CallUpdate (SetState dest (stater w)) [clause_Associations] "state" dest err])).
Proof.
  destruct (Do_outcome trigger userInfoId args w)
    as (r & w' & new & -> & Hcalls & _ & Hcases).
  exists new. split; [done|]. simpl.
  destruct Hcases as [(-> & -> & _)|[(_ & Hst & Hupd & _)|(_ & config & dest & Hdecl & Hdst & Hst & err & Hupd & _)]].
  - by left.
  - by left.
  - right. by exists config, dest, err.
Qed.

(** X2: a call of [Do] accepts an audit record only when it returns nil,
    and a nil return means one of two things: the guard said no (the
    entity is as it was and the guard is the only call made), or the
    transition is complete (the state is the "dest" entry, the update of
    the state column was accepted, and exactly one audit record was
    accepted, carrying the entity's id and type name, the trigger, that
    dest and the operator). *)
Theorem Do_nil_skipped_or_logged trigger userInfoId args w :
  exists new,
    calls (Do trigger userInfoId args w).2 = calls w ++ new /\
    (((Do trigger userInfoId args w).1 <> Return None /\ audit_records new = []) \/
     ((Do trigger userInfoId args w).1 = Return None /\
      stater (Do trigger userInfoId args w).2 = stater w /\
      new = [CallCondition args]) \/
     ((Do trigger userInfoId args w).1 = Return None /\
      exists config dest id source,
        Triggers (stater w) !! trigger = Some config /\
        config !! "dest" = Some (IVal (AnyString dest)) /\
        Fields (stater w) !! "ID" = Some (AnyUint id) /\
        stater (Do trigger userInfoId args w).2 = SetState dest (stater w) /\
        updates new = [CallUpdate (SetState dest (stater w)) [clause_Associations] "state" dest None] /\
        audit_records new
        = [audit_record (stater w) id trigger source dest userInfoId])).
Proof.
  destruct (Do_outcome trigger userInfoId args w)
    as (r & w' & new & -> & Hcalls & _ & Hcases).
  exists new. split; [done|]. simpl.
  destruct Hcases as [(-> & -> & Hr & _)|[(_ & Hst & Hupd & Haudit & Hnil & _)|(_ & config & dest & Hdecl & Hdst & Hst & err & Hupd & Hlog)]].
  - left. by split.
  - destruct r as [a|[e|]|msg]; try (left; by split).
    right. left. repeat split; [done|]. by apply Hnil.
  - destruct Hlog as [[Haudit Hr]|(id & source & -> & -> & Hid & Haudit)].
    + left. by split.
    + right. right. split; [done|]. by exists config, dest, id, source.
Qed.

(** ** [AvailableTriggers] and [Do] *)

Lemma AvailableTriggers_along_Val (entries : list (string * gmap string (iface DB)))
    sm triggers l :
  AvailableTriggers_along entries sm triggers = Val l ->
  (forall entry, entry ∈ entries -> is_string (entry.2 !! "source") = true) /\
  l = triggers ++ flat_map (entry_triggers sm) entries.
Proof.
  revert triggers. induction entries as [|[trigger config] entries IH];
    intros triggers Hval; simpl in Hval.
  - injection Hval as <-. split; [|by rewrite app_nil_r].
    intros entry Hin. by apply elem_of_nil in Hin.
  - unfold entry_triggers at 1, sourceStates. simpl.
    destruct (config !! "source") as [[[source|?|?|?]|?|?]|] eqn:Hsrc; try discriminate.
    destruct (IH _ Hval) as [Htyped ->]. split; [|by rewrite <- app_assoc].
    intros entry Hin. apply elem_of_cons in Hin as [->|Hin]; [|by apply Htyped].
    simpl. by rewrite Hsrc.
Qed.

(** On a table whose "dest" entries are strings, the triggers
    [AvailableTriggers] lists are the ones [Do] does not turn down. *)
Lemma listed_iff_validated sm l trigger :
  (forall t config, Triggers sm !! t = Some config -> is_string (config !! "dest") = true) ->
  AvailableTriggers sm (Val l) ->
  (exists a, In a l /\ Trigger a = trigger) <-> validated sm trigger.
Proof.
  intros Hdests (entries & Horder & Hval). unfold range_order in Horder.
  symmetry in Hval. apply AvailableTriggers_along_Val in Hval as [Htyped ->]. simpl.
  assert (forall t config,
            (t, config) ∈ entries <-> Triggers sm !! t = Some config) as Hentries.
  { intros t config. rewrite Horder. apply elem_of_map_to_list. }
  split.
  - intros (a & Hin & Ha). apply in_flat_map in Hin as ([t config] & Hentry & Hin).
    apply list_elem_of_In in Hentry.
    pose proof (Htyped _ Hentry) as Hsrc. apply Hentries in Hentry.
    pose proof (Hdests _ _ Hentry) as Hdst. simpl in Hsrc.
    unfold entry_triggers, sourceStates in Hin. simpl in Hin.
    destruct (config !! "source") as [[[source|?|?|?]|?|?]|] eqn:Esrc; try discriminate.
    destruct (config !! "dest") as [[[dest|?|?|?]|?|?]|] eqn:Edst; try discriminate.
    apply matching_entries_In in Hin as [-> Hstate]. simpl in Ha. subst t.
    by exists config, source, dest.
  - intros (config & source & dest & Hdecl & Hsrc & Hdst & Hstate).
    exists {| TranslatedTrigger := Lang_Sprintf (StructName sm +:+ ":" +:+ trigger);
              Trigger := trigger |}.
    split; [|reflexivity]. apply in_flat_map. exists (trigger, config). split.
    + apply list_elem_of_In. by apply Hentries.
    + unfold entry_triggers, sourceStates. simpl. rewrite Hsrc.
      apply matching_entries_In. split; [reflexivity|done].
Qed.

(** X3: on a table whose "dest" entries are strings, the triggers
    listed by [AvailableTriggers] are exactly those that [Do] does not
    turn down: [Do] returns an error and leaves the world as it was
    exactly for the triggers that are not listed. *)
Theorem AvailableTriggers_lists_accepted trigger userInfoId args w l :
  (forall t config,
     Triggers (stater w) !! t = Some config -> is_string (config !! "dest") = true) ->
  AvailableTriggers (stater w) (Val l) ->
  (exists a, In a l /\ Trigger a = trigger) <->
  ~ exists err, Do trigger userInfoId args w = (Return (Some err), w).
Proof.
  intros Hdests Hlist. rewrite (listed_iff_validated _ _ trigger Hdests Hlist).
  destruct (Do_outcome trigger userInfoId args w)
    as (r & w' & new & Hdo & Hcalls & Hnoval & Hcases).
  destruct Hcases as [(-> & -> & Hr & Hnot)|[(Hval & Hst & Hupd & Haudit & Hnil & Hnew)|(Hval & config & dest & Hdecl & Hdst & Hst & err & Hupd & Hlog)]].
  - split; [done|]. intros Hnone. exfalso. apply Hnone.
    destruct r as [a|[e|]|msg]; [by destruct (Hnoval a)|by exists e|done|].
    (* a panic before validation happens only on an entry that is not a string *)
    exfalso. apply Hnot.
    destruct (Triggers (stater w) !! trigger) as [config|] eqn:Hdecl;
      [|unfold Do, bind, get_stater, return_ in Hdo; by rewrite Hdecl in Hdo].
    pose proof (Hdests _ _ Hdecl) as Hdst.
    destruct (config !! "dest") as [[[dest|?|?|?]|?|?]|] eqn:Edst; try discriminate.
    destruct (config !! "source") as [[[source|?|?|?]|?|?]|] eqn:Esrc.
    all: try (destruct Hlist as (entries & Horder & Hval);
              symmetry in Hval; apply AvailableTriggers_along_Val in Hval as [Htyped _];
              assert ((trigger, config) ∈ entries) as Hentry
                by (rewrite Horder; by apply elem_of_map_to_list);
              apply Htyped in Hentry; simpl in Hentry; rewrite Esrc in Hentry;
              discriminate).
    rewrite (Do_declared _ _ _ _ config source dest) in Hdo by done.
    rewrite scan_sources_eq in Hdo.
    destruct (existsb _ _) eqn:Hscan; [|simpl in Hdo; congruence].
    apply existsb_eqb_In in Hscan. by exists config, source, dest.
  - split; [|done]. intros _ (e & Hrej). rewrite Hdo in Hrej.
    injection Hrej as -> ->. apply (Hnew _ eq_refl).
    apply (app_inv_head (calls w)). by rewrite app_nil_r.
  - split; [|done]. intros _ (e & Hrej). rewrite Hdo in Hrej.
    injection Hrej as -> ->.
    assert (new = []) as -> by (apply (app_inv_head (calls w)); by rewrite app_nil_r).
    discriminate Hupd.
Qed.

(** ** Failures after the state is written *)

(** X4: when every step up to the audit record succeeds and the handle
    refuses the record, [Do] returns the error of the handle; the state
    in memory is already the "dest" entry, the update of the state
    column has been accepted, and no audit record has been. *)
Theorem Do_audit_insert_fails trigger userInfoId args sm d0 cs config source dest
    id e d1 d2 d3 d4 d5 :
  Triggers sm !! trigger = Some config ->
  config !! "source" = Some (IVal (AnyString source)) ->
  config !! "dest" = Some (IVal (AnyString dest)) ->
  In (GetState sm) (Split source ",") ->
  guard_passes (config !! "condition") args d0 d1 ->
  hook_succeeds (config !! "before") args d1 d2 ->
  tx_Update (SetState dest sm) [clause_Associations] "state" dest d2 = (None, d3) ->
  hook_succeeds (config !! "after") args d3 d4 ->
  Fields sm !! "ID" = Some (AnyUint id) ->
  tx_Create (audit_record sm id trigger (List.last (Split source ",") "") dest userInfoId) d4
  = (Some e, d5) ->
  exists w',
    Do trigger userInfoId args {| stater := sm; db := d0; calls := cs |}
      = (Return (Some e), w') /\
    stater w' = SetState dest sm /\
    db w' = d5 /\
    updates (calls w') = updates cs ++ [CallUpdate (SetState dest sm) [clause_Associations] "state" dest None] /\
    audit_records (calls w') = audit_records cs.
Proof.
  intros Hdecl Hsrc Hdst Hin Hguard Hbefore Hupd Hafter Hid Hcreate.
  rewrite (Do_declared _ _ _ _ config source dest) by done. simpl stater.
  rewrite (scan_sources_member _ _ Hin). simpl negb. cbv iota beta.
  unfold bind at 1. rewrite (run_condition_passes _ _ _ _ _ _ Hguard).
  unfold bind at 1. rewrite (run_hook_succeeds _ _ _ _ _ _ _ Hbefore).
  unfold bind at 1. rewrite persist_result, Hupd.
  unfold bind at 1. rewrite (run_hook_succeeds _ _ _ _ _ _ _ Hafter).
  unfold bind at 1, emit at 1. simpl.
  rewrite (log_result _ _ _ _ _ _ _ id) by done. simpl.
  unfold audit_record, StructName in Hcreate. rewrite Hcreate.
  eexists. split; [reflexivity|]. simpl. repeat split.
  - rewrite !updates_app, !updates_called_if_present by done. simpl.
    by rewrite !app_nil_r.
  - rewrite !audit_records_app, !audit_records_called_if_present by done. simpl.
    by rewrite !app_nil_r.
Qed.

(** X5: when every step up to the audit record succeeds and the entity
    has no unsigned field "ID", [Do] panics after the fact: the state in
    memory is the "dest" entry and the update of the state column has
    been accepted, while the handle is never asked to create the audit
    record. *)
Theorem Do_panics_without_ID trigger userInfoId args sm d0 cs config source dest
    d1 d2 d3 d4 :
  Triggers sm !! trigger = Some config ->
  config !! "source" = Some (IVal (AnyString source)) ->
  config !! "dest" = Some (IVal (AnyString dest)) ->
  In (GetState sm) (Split source ",") ->
  guard_passes (config !! "condition") args d0 d1 ->
  hook_succeeds (config !! "before") args d1 d2 ->
  tx_Update (SetState dest sm) [clause_Associations] "state" dest d2 = (None, d3) ->
  hook_succeeds (config !! "after") args d3 d4 ->
  has_uint_ID sm = false ->
  exists msg w',
    Do trigger userInfoId args {| stater := sm; db := d0; calls := cs |}
      = (Panic msg, w') /\
    stater w' = SetState dest sm /\
    db w' = d4 /\
    calls w'
    = ((((cs ++ called_if_present CallCondition (config !! "condition") args)
         ++ called_if_present CallBefore (config !! "before") args)
        ++ [CallUpdate (SetState dest sm) [clause_Associations] "state" dest None])
       ++ called_if_present CallAfter (config !! "after") args)
      ++ [CallPrintln (List.last (Split source ",") "") dest] /\
    audit_records (calls w') = audit_records cs.
Proof.
  intros Hdecl Hsrc Hdst Hin Hguard Hbefore Hupd Hafter Hid.
  rewrite (Do_declared _ _ _ _ config source dest) by done. simpl stater.
  rewrite (scan_sources_member _ _ Hin). simpl negb. cbv iota beta.
  unfold bind at 1. rewrite (run_condition_passes _ _ _ _ _ _ Hguard).
  unfold bind at 1. rewrite (run_hook_succeeds _ _ _ _ _ _ _ Hbefore).
  unfold bind at 1. rewrite persist_result, Hupd.
  unfold bind at 1. rewrite (run_hook_succeeds _ _ _ _ _ _ _ Hafter).
  unfold bind at 1, emit at 1. simpl.
  match goal with |- context [log ?t ?s ?ds ?u ?w] =>
    destruct (log_panics_without_uint_ID t s ds u w Hid) as [msg ->] end.
  eexists _, _. split; [reflexivity|]. simpl. repeat split.
  rewrite !audit_records_app, !audit_records_called_if_present by done. simpl.
  by rewrite !app_nil_r.
Qed.

(** ** The source written to the audit record *)

Lemma last_In (pieces : list string) (s : string) :
  pieces <> [] -> In (List.last pieces s) pieces.
Proof.
  induction pieces as [|piece pieces IH]; [done|]. intros _.
  destruct pieces as [|piece' pieces]; [by left|].
  right. apply IH. discriminate.
Qed.

(** X6: when the current state is the last piece of the source list of
    the trigger (as it is whenever the list names one state) and every
    step succeeds, [Do] returns nil, the state becomes the "dest"
    entry, and the calls made are, in this order, the guard and the
    before-hook if present, the update of the state column, the
    after-hook if present, the print, and the creation of one audit
    record whose source is the state the entity had before. *)
Theorem Do_logs_prior_state trigger userInfoId args sm d0 cs config source dest
    id d1 d2 d3 d4 d5 :
  Triggers sm !! trigger = Some config ->
  config !! "source" = Some (IVal (AnyString source)) ->
  config !! "dest" = Some (IVal (AnyString dest)) ->
  List.last (Split source ",") "" = GetState sm ->
  guard_passes (config !! "condition") args d0 d1 ->
  hook_succeeds (config !! "before") args d1 d2 ->
  tx_Update (SetState dest sm) [clause_Associations] "state" dest d2 = (None, d3) ->
  hook_succeeds (config !! "after") args d3 d4 ->
  Fields sm !! "ID" = Some (AnyUint id) ->
  tx_Create (audit_record sm id trigger (GetState sm) dest userInfoId) d4 = (None, d5) ->
  Do trigger userInfoId args {| stater := sm; db := d0; calls := cs |}
  = (Return None,
     {| stater := SetState dest sm; db := d5;
        calls := (((((cs ++ called_if_present CallCondition (config !! "condition") args)
                    ++ called_if_present CallBefore (config !! "before") args)
                   ++ [CallUpdate (SetState dest sm) [clause_Associations] "state" dest None])
                  ++ called_if_present CallAfter (config !! "after") args)
                 ++ [CallPrintln (GetState sm) dest])
                ++ [CallCreate (audit_record sm id trigger (GetState sm) dest userInfoId)
                      None] |}).
Proof.
  intros Hdecl Hsrc Hdst Hlast Hguard Hbefore Hupd Hafter Hid Hcreate.
  assert (In (GetState sm) (Split source ",")) as Hin.
  { rewrite <- Hlast. apply last_In, Split_not_nil. }
  rewrite (Do_succeeds trigger userInfoId args sm d0 cs config source dest id
             d1 d2 d3 d4 d5); try done.
  - by rewrite Hlast.
  - rewrite Hlast. exact Hcreate.
Qed.

(** X7: once a trigger has fired, it cannot fire again from the state
    it led to unless that state is one of its sources: after a call of
    [Do] in which every step succeeds, a second call for the same
    trigger returns the invalid-transition error naming the new state,
    and changes nothing. *)
Theorem Do_not_twice trigger userInfoId args userInfoId' args' sm d0 cs config
    source dest id d1 d2 d3 d4 d5 :
  Triggers sm !! trigger = Some config ->
  config !! "source" = Some (IVal (AnyString source)) ->
  config !! "dest" = Some (IVal (AnyString dest)) ->
  In (GetState sm) (Split source ",") ->
  guard_passes (config !! "condition") args d0 d1 ->
  hook_succeeds (config !! "before") args d1 d2 ->
  tx_Update (SetState dest sm) [clause_Associations] "state" dest d2 = (None, d3) ->
  hook_succeeds (config !! "after") args d3 d4 ->
  Fields sm !! "ID" = Some (AnyUint id) ->
  tx_Create (audit_record sm id trigger (List.last (Split source ",") "") dest userInfoId) d4
  = (None, d5) ->
  ~ In dest (Split source ",") ->
  let w1 := (Do trigger userInfoId args {| stater := sm; db := d0; calls := cs |}).2 in
  Do trigger userInfoId' args' w1
  = (Return (Some (errors_New ("can not do trigger: " +:+ trigger +:+
                               ", current state: " +:+ dest))), w1).
Proof.
  intros Hdecl Hsrc Hdst Hin Hguard Hbefore Hupd Hafter Hid Hcreate Hnotin.
  rewrite (Do_succeeds trigger userInfoId args sm d0 cs config source dest id
             d1 d2 d3 d4 d5) by done.
  simpl. rewrite (Do_declared _ _ _ _ config source dest) by done. simpl.
  by rewrite (scan_sources_not_member _ _ Hnotin).
Qed.

(** ** Entries of the wrong dynamic type *)

(** X8: a declared trigger whose "source" or "dest" entry is not a
    string makes [Do] panic at once, whatever the state of the entity:
    nothing is called and nothing is changed. *)
Theorem Do_panics_on_untyped_entry trigger userInfoId args w config :
  Triggers (stater w) !! trigger = Some config ->
  is_string (config !! "source") && is_string (config !! "dest") = false ->
  exists msg, Do trigger userInfoId args w = (Panic msg, w).
Proof.
  intros Hdecl Hty. destruct (is_string (config !! "source")) eqn:Hsrc.
  - by apply (Do_panics_on_untyped_dest _ _ _ _ config).
  - by apply (Do_panics_on_untyped_source _ _ _ _ config).
Qed.

(** X9: a "condition" entry that is not nil and is not a function of
    the guard type makes [Do] panic as soon as the trigger is found
    valid for the current state: nothing is called and nothing is
    changed. *)
Theorem Do_panics_on_untyped_guard trigger userInfoId args w config source dest v :
  Triggers (stater w) !! trigger = Some config ->
  config !! "source" = Some (IVal (AnyString source)) ->
  config !! "dest" = Some (IVal (AnyString dest)) ->
  In (GetState (stater w)) (Split source ",") ->
  config !! "condition" = Some v ->
  is_guard_or_nil (Some v) = false ->
  exists msg, Do trigger userInfoId args w = (Panic msg, w).
Proof.
  intros Hdecl Hsrc Hdst Hin Hcond Hty.
  rewrite (Do_declared _ _ _ _ config source dest) by done.
  rewrite (scan_sources_member _ _ Hin). simpl negb. cbv iota beta.
  rewrite Hcond. unfold bind at 1, run_condition, bind at 1, assert_func_bool.
  destruct v as [?|?|?]; try discriminate; by eexists.
Qed.

(** X10: an "after" entry that is not nil and is not a function of the
    hook type makes [Do] panic after the fact: the guard and the
    before-hook have run, the state in memory is the "dest" entry and
    the update of the state column has been accepted, and no audit
    record is written. *)
Theorem Do_panics_on_untyped_after trigger userInfoId args sm d0 cs config source dest
    v d1 d2 d3 :
  Triggers sm !! trigger = Some config ->
  config !! "source" = Some (IVal (AnyString source)) ->
  config !! "dest" = Some (IVal (AnyString dest)) ->
  In (GetState sm) (Split source ",") ->
  guard_passes (config !! "condition") args d0 d1 ->
  hook_succeeds (config !! "before") args d1 d2 ->
  tx_Update (SetState dest sm) [clause_Associations] "state" dest d2 = (None, d3) ->
  config !! "after" = Some v ->
  is_hook_or_nil (Some v) = false ->
  exists msg,
    Do trigger userInfoId args {| stater := sm; db := d0; calls := cs |}
    = (Panic msg,
       {| stater := SetState dest sm; db := d3;
          calls := ((cs ++ called_if_present CallCondition (config !! "condition") args)
                    ++ called_if_present CallBefore (config !! "before") args)
                   ++ [CallUpdate (SetState dest sm) [clause_Associations] "state" dest None] |}).
Proof.
  intros Hdecl Hsrc Hdst Hin Hguard Hbefore Hupd Hafter Hty.
  rewrite (Do_declared _ _ _ _ config source dest) by done. simpl stater.
  rewrite (scan_sources_member _ _ Hin). simpl negb. cbv iota beta.
  unfold bind at 1. rewrite (run_condition_passes _ _ _ _ _ _ Hguard).
  unfold bind at 1. rewrite (run_hook_succeeds _ _ _ _ _ _ _ Hbefore).
  unfold bind at 1. rewrite persist_result, Hupd.
  rewrite Hafter. unfold bind at 1, run_hook, bind at 1, assert_func_error.
  destruct v as [?|?|?]; try discriminate; by eexists.
Qed.

(** ** The key of [TranslatedState] *)

Lemma key_inj (type1 name1 type2 name2 : string) :
  contains ":" type1 = false -> contains ":" type2 = false ->
  type1 +:+ ":" +:+ name1 = type2 +:+ ":" +:+ name2 ->
  type1 = type2 /\ name1 = name2.
Proof.
  revert type2. induction type1 as [|c type1 IH]; intros [|c' type2] H1 H2 Heq;
    cbn in *.
  - injection Heq as Heq. by split.
  - injection Heq as Hc _. subst c'. by rewrite Ascii.eqb_refl in H2.
  - injection Heq as Hc _. subst c. by rewrite Ascii.eqb_refl in H1.
  - injection Heq as Hc Heq. subst c'.
    apply orb_false_elim in H1 as [_ H1]. apply orb_false_elim in H2 as [_ H2].
    destruct (IH type2 H1 H2 Heq) as [-> ->]. done.
Qed.

(** X11: the key [TranslatedState] looks up names the type and the state
    without ambiguity: with a printer that tells keys apart, two
    entities whose type names hold no colon have the same translated
    state only when they have the same type name and the same state. *)
Theorem TranslatedState_tells_apart sm1 sm2 :
  (forall key1 key2, Lang_Sprintf key1 = Lang_Sprintf key2 -> key1 = key2) ->
  contains ":" (StructName sm1) = false ->
  contains ":" (StructName sm2) = false ->
  TranslatedState sm1 = TranslatedState sm2 ->
  StructName sm1 = StructName sm2 /\ GetState sm1 = GetState sm2.
Proof.
  intros Hinj H1 H2 Heq. unfold TranslatedState in Heq.
  apply Hinj in Heq. by apply key_inj.
Qed.

End Outcomes.

(** ** [strings.Split] *)

Lemma Split_sep rest sep : Split (String sep rest) sep = "" :: Split rest sep.
Proof. simpl. by rewrite Ascii.eqb_refl. Qed.

Lemma Split_other c rest sep piece pieces :
  Ascii.eqb c sep = false -> Split rest sep = piece :: pieces ->
  Split (String c rest) sep = String c piece :: pieces.
Proof. intros Hc Hrest. simpl. by rewrite Hc, Hrest. Qed.

Lemma concat_cons_Split (sep : ascii) piece s :
  String.concat (String sep "") (piece :: Split s sep)
  = piece +:+ String sep (String.concat (String sep "") (Split s sep)).
Proof.
  simpl. destruct (Split s sep) eqn:E; [by apply Split_not_nil in E|done].
Qed.

(** X12: joining the pieces of [Split] with the separator gives the
    string back, and no piece holds the separator: the source list of a
    trigger is read as the exact text between the commas, blanks
    included. *)
Theorem Split_join s sep :
  String.concat (String sep "") (Split s sep) = s /\
  Forall (fun piece => contains sep piece = false) (Split s sep).
Proof.
  induction s as [|c rest [IHjoin IHfree]]; [by repeat constructor|].
  destruct (Ascii.eqb c sep) eqn:Hc.
  - apply Ascii.eqb_eq in Hc. subst c. rewrite Split_sep. split.
    + rewrite concat_cons_Split. simpl. by rewrite IHjoin.
    + by constructor.
  - destruct (Split rest sep) as [|piece pieces] eqn:Hrest;
      [by apply Split_not_nil in Hrest|].
    rewrite (Split_other _ _ _ piece pieces) by done. split.
    + rewrite <- IHjoin. simpl. by destruct pieces.
    + apply Forall_cons in IHfree as [Hpiece Hpieces].
      constructor; [|done]. simpl. by rewrite Hc, Hpiece.
Qed.

Lemma Split_piece_then_sep piece rest sep :
  contains sep piece = false ->
  Split (piece +:+ String sep rest) sep = piece :: Split rest sep.
Proof.
  induction piece as [|c piece IH]; intros Hfree; simpl in *.
  - by rewrite Ascii.eqb_refl.
  - apply orb_false_elim in Hfree as [Hc Hfree]. by rewrite Hc, IH.
Qed.

Lemma Split_one_piece piece sep :
  contains sep piece = false -> Split piece sep = [piece].
Proof.
  induction piece as [|c piece IH]; intros Hfree; simpl in *; [done|].
  apply orb_false_elim in Hfree as [Hc Hfree]. by rewrite Hc, IH.
Qed.

(** X13: a source list written as state names joined by the separator,
    none of them holding the separator, is read back by [Split] as
    exactly those names. *)
Theorem Split_of_join pieces sep :
  pieces <> [] ->
  Forall (fun piece => contains sep piece = false) pieces ->
  Split (String.concat (String sep "") pieces) sep = pieces.
Proof.
  induction pieces as [|piece pieces IH]; [done|]. intros _ Hfree.
  apply Forall_cons in Hfree as [Hpiece Hpieces].
  destruct pieces as [|piece' pieces]; [by apply Split_one_piece|].
  change (String.concat (String sep "") (piece :: piece' :: pieces))
    with (piece +:+ String sep EmptyString
                +:+ String.concat (String sep "") (piece' :: pieces)).
  change (String sep EmptyString +:+ ?t) with (String sep t).
  rewrite Split_piece_then_sep by done. f_equal. by apply IH.
Qed.

(** ** [AfterFind] *)

Lemma bind_elements_lookup elems (bound : gmap N N) l :
  (bind_elements elems bound).2 !! l
  = if bool_decide (l ∈ bound_prefix elems) then Some l else bound !! l.
Proof.
  revert bound. induction elems as [|[l0|] elems IH]; intros bound; simpl; [done| |done].
  rewrite IH. unfold SetStater.
  destruct (decide (l = l0)) as [->|Hne].
  - rewrite lookup_insert_eq. rewrite (bool_decide_eq_true_2 (l0 ∈ l0 :: _));
      [|by left]. by case_bool_decide.
  - rewrite lookup_insert_ne by done.
    case_bool_decide as Hin.
    + rewrite bool_decide_eq_true_2; [done|by right].
    + rewrite bool_decide_eq_false_2; [done|].
      intros [?|?]%elem_of_cons; done.
Qed.

Lemma bind_elements_status elems (bound : gmap N N) :
  (bind_elements elems bound).1 = None <-> NotStater ∉ elems.
Proof.
  revert bound. induction elems as [|[l0|] elems IH]; intros bound; simpl.
  - split; [intros _; apply not_elem_of_nil|done].
  - rewrite IH, not_elem_of_cons. split; [by split|by intros [_ Hnot]].
  - split; [done|]. intros Hnot. exfalso. apply Hnot. by left.
Qed.

Lemma bind_elements_same_status elems (bound bound' : gmap N N) :
  (bind_elements elems bound).1 = (bind_elements elems bound').1.
Proof.
  revert bound bound'. induction elems as [|[l0|] elems IH]; intros bound bound';
    simpl; auto.
Qed.

Lemma bind_elements_again elems (bound : gmap N N) :
  (forall l, l ∈ bound_prefix elems -> bound !! l = Some l) ->
  bind_elements elems bound = ((bind_elements elems bound).1, bound).
Proof.
  induction elems as [|[l0|] elems IH]; intros Hbound; simpl; [done| |done].
  unfold SetStater. rewrite insert_id by (apply Hbound; by left).
  apply IH. intros l Hl. apply Hbound. by right.
Qed.

(** X14: on a pointer to a slice, [AfterFind] binds to itself every
    entity before the first element that is not a [Stater], and leaves
    every other binding as it was; it returns nil when there is no such
    element, and panics otherwise, the entities before it staying
    bound. *)
Theorem AfterFind_binds_prefix elems (bound : gmap N N) l :
  (l ∈ bound_prefix elems -> (AfterFind (ModelSlice elems) bound).2 !! l = Some l) /\
  (l ∉ bound_prefix elems -> (AfterFind (ModelSlice elems) bound).2 !! l = bound !! l) /\
  ((AfterFind (ModelSlice elems) bound).1 = Return None <-> NotStater ∉ elems) /\
  (NotStater ∈ elems -> exists msg, (AfterFind (ModelSlice elems) bound).1 = Panic msg).
Proof.
  pose proof (bind_elements_lookup elems bound l) as Hlookup.
  pose proof (bind_elements_status elems bound) as Hstatus.
  unfold AfterFind. destruct (bind_elements elems bound) as [[msg|] bound'];
    simpl in *.
  - repeat split.
    + intros Hin. by rewrite Hlookup, bool_decide_eq_true_2.
    + intros Hnot. by rewrite Hlookup, bool_decide_eq_false_2.
    + done.
    + intros Hnot. by apply Hstatus in Hnot.
    + intros _. by exists msg.
  - repeat split.
    + intros Hin. by rewrite Hlookup, bool_decide_eq_true_2.
    + intros Hnot. by rewrite Hlookup, bool_decide_eq_false_2.
    + intros _. by apply Hstatus.
    + intros Hin. exfalso. by apply (proj1 Hstatus eq_refl).
Qed.

(** X15: [AfterFind] can be run again without effect: a second run on
    the bindings left by the first returns what the first returned and
    leaves those bindings as they are. *)
Theorem AfterFind_again model (bound : gmap N N) :
  AfterFind model (AfterFind model bound).2 = AfterFind model bound.
Proof.
  destruct model as [elems|[l|]| |]; simpl; try done.
  - assert (bind_elements elems (bind_elements elems bound).2
            = bind_elements elems bound) as Hagain.
    { rewrite bind_elements_again.
      - rewrite (bind_elements_same_status elems _ bound).
        by destruct (bind_elements elems bound).
      - intros l Hl. by rewrite bind_elements_lookup, bool_decide_eq_true_2. }
    destruct (bind_elements elems bound) as [[msg|] bound'] eqn:E; simpl in *;
      by rewrite Hagain.
  - unfold SetStater. by rewrite insert_insert_eq.
Qed.

(** ** The engine on the in-memory handle *)

#[local] Existing Instance mem_handle.
#[local] Existing Instance key_printer.

(** The scenario of an order that is paid: the guard sees a positive
    amount, the state becomes Paid and one audit record is written. *)
Example pay_from_Created :
  let result := Do "pay" 7 [AnyInt 10] (order_world "Created" mem_empty) in
  result.1 = Return None /\
  GetState (stater result.2) = "Paid" /\
  mem_audit (db result.2)
  = [{| ObjectId := 1; ObjectStruct := "Order"; LogTrigger := "pay";
        Source := "Created"; Dest := "Paid"; OperatorId := 7 |}].
Proof. vm_compute. repeat split. Qed.

(** With an amount of 0 the guard says no: the state is still Created,
    no audit record is written and no error is returned. *)
Example pay_nothing_from_Created :
  let result := Do "pay" 7 [AnyInt 0] (order_world "Created" mem_empty) in
  result.1 = Return None /\
  GetState (stater result.2) = "Created" /\
  mem_audit (db result.2) = [].
Proof. vm_compute. repeat split. Qed.

(** A shipped order cannot be paid. *)
Example pay_from_Shipped :
  Do "pay" 7 [AnyInt 10] (order_world "Shipped" mem_empty)
  = (Return (Some (errors_New "can not do trigger: pay, current state: Shipped")),
     order_world "Shipped" mem_empty).
Proof. reflexivity. Qed.

(** C1 (defect of the code): [cancel] may start from Created or from
    Paid.  Started from Created, [Do] succeeds and sets the state to
    Cancelled, but the one audit record it writes names Paid, the last
    piece of the source list, as the source state, not Created. *)
Theorem Do_logs_last_source_piece :
  let result := Do "cancel" 7 [] (order_world "Created" mem_empty) in
  GetState (stater (order_world "Created" mem_empty)) = "Created" /\
  result.1 = Return None /\
  GetState (stater result.2) = "Cancelled" /\
  audit_records (calls result.2)
  = [{| ObjectId := 1; ObjectStruct := "Order"; LogTrigger := "cancel";
        Source := "Paid"; Dest := "Cancelled"; OperatorId := 7 |}].
Proof. vm_compute. repeat split. Qed.

(** [Do_unknown_trigger] on an order: no trigger is called refund. *)
Lemma Do_unknown_trigger_witness :
  Do "refund" 7 [] (order_world "Created" mem_empty)
  = (Return (Some (errors_New "can not do trigger: refund")),
     order_world "Created" mem_empty).
Proof.
  apply (Do_unknown_trigger "refund" 7 [] (order_world "Created" mem_empty)).
  reflexivity.
Defined.

(** [Do_invalid_transition] on an order: shipping starts from Paid only. *)
Lemma Do_invalid_transition_witness :
  Do "ship" 7 [] (order_world "Created" mem_empty)
  = (Return (Some (errors_New "can not do trigger: ship, current state: Created")),
     order_world "Created" mem_empty).
Proof.
  apply (Do_invalid_transition "ship" 7 [] (order_world "Created" mem_empty)
           ship_config "Paid" "Shipped").
  - reflexivity.
  - reflexivity.
  - reflexivity.
  - simpl. intros [Heq|[]]. discriminate.
Defined.

(** [Do_guard_rejects] on an order: paying an amount of 0 is skipped. *)
Lemma Do_guard_rejects_witness :
  exists w',
    Do "pay" 7 [AnyInt 0] (order_world "Created" mem_empty) = (Return None, w') /\
    stater w' = order "Created" /\
    calls w' = no_calls ++ [CallCondition [AnyInt 0]] /\
    hook_calls (calls w') = hook_calls no_calls /\
    updates (calls w') = updates no_calls /\
    audit_records (calls w') = audit_records no_calls.
Proof.
  apply (Do_guard_rejects "pay" 7 [AnyInt 0] (order "Created") mem_empty no_calls
           pay_config "Created" "Paid" amount_positive mem_empty).
  - reflexivity.
  - reflexivity.
  - reflexivity.
  - simpl. left. reflexivity.
  - reflexivity.
  - reflexivity.
Defined.

(** [Do_before_hook_fails] on an order: the before-hook of refuse fails. *)
Lemma Do_before_hook_fails_witness :
  exists w',
    Do "refuse" 7 [] (order_world "Created" mem_empty)
      = (Return (Some (errors_New "boom")), w') /\
    stater w' = order "Created" /\
    calls w' = (no_calls ++ called_if_present CallCondition (refuse_config !! "condition") [])
               ++ [CallBefore []] /\
    updates (calls w') = updates no_calls /\
    audit_records (calls w') = audit_records no_calls.
Proof.
  apply (Do_before_hook_fails "refuse" 7 [] (order "Created") mem_empty no_calls
           refuse_config "Created" "Cancelled" hook_boom (errors_New "boom")
           mem_empty mem_empty).
  - reflexivity.
  - reflexivity.
  - reflexivity.
  - simpl. left. reflexivity.
  - reflexivity.
  - reflexivity.
  - reflexivity.
Defined.

(** [Do_after_hook_fails] on an order: the after-hook of regret fails. *)
Lemma Do_after_hook_fails_witness :
  exists w',
    Do "regret" 7 [] (order_world "Created" mem_empty)
      = (Return (Some (errors_New "boom")), w') /\
    GetState (stater w') = "Cancelled" /\
    updates (calls w')
    = updates no_calls ++ [CallUpdate (SetState "Cancelled" (order "Created")) [clause_Associations]
                       "state" "Cancelled" None] /\
    audit_records (calls w') = audit_records no_calls.
Proof.
  apply (Do_after_hook_fails "regret" 7 [] (order "Created") mem_empty no_calls
           regret_config "Created" "Cancelled" hook_boom (errors_New "boom")
           mem_empty mem_empty
           {| mem_columns := [("Order", "state", "Cancelled")]; mem_audit := [];
              mem_update_error := None; mem_create_error := None |}
           {| mem_columns := [("Order", "state", "Cancelled")]; mem_audit := [];
              mem_update_error := None; mem_create_error := None |}).
  - reflexivity.
  - reflexivity.
  - reflexivity.
  - simpl. left. reflexivity.
  - reflexivity.
  - reflexivity.
  - reflexivity.
  - reflexivity.
  - reflexivity.
Defined.

(** [Do_persists_state_only] on an order that is cancelled: the handle
    goes on with the state column written. *)
Lemma Do_persists_state_only_witness :
  exists r w' new,
    Do "cancel" 7 [] (order_world "Created" mem_empty) = (r, w') /\
    (r, w')
    = after_persist cancel_config "cancel" (List.last (Split "Created,Paid" ",") "")
        "Cancelled" 7 []
        {| stater := SetState "Cancelled" (order "Created");
           db := mem_updated "Cancelled" mem_empty;
           calls := ((no_calls
                      ++ called_if_present CallCondition (cancel_config !! "condition") [])
                     ++ called_if_present CallBefore (cancel_config !! "before") [])
                    ++ [CallUpdate (SetState "Cancelled" (order "Created"))
                          [clause_Associations] "state" "Cancelled" None] |} /\
    stater w' = SetState "Cancelled" (order "Created") /\
    calls w' = no_calls ++ new /\
    updates new = [CallUpdate (SetState "Cancelled" (order "Created"))
                     [clause_Associations] "state" "Cancelled" None] /\
    (forall e, None = Some e ->
       r = Return (Some e) /\ GetState (stater w') = "Cancelled" /\
       db w' = mem_updated "Cancelled" mem_empty /\ audit_records new = []).
Proof.
  apply (Do_persists_state_only "cancel" 7 [] (order "Created") mem_empty no_calls
           cancel_config "Created,Paid" "Cancelled" mem_empty mem_empty
           None (mem_updated "Cancelled" mem_empty)).
  - reflexivity.
  - reflexivity.
  - reflexivity.
  - simpl. left. reflexivity.
  - reflexivity.
  - reflexivity.
  - reflexivity.
Defined.

(** On the in-memory handle the state column, and nothing else, is
    written by a cancellation. *)
Example cancel_writes_state_column :
  mem_columns (db (Do "cancel" 7 [] (order_world "Created" mem_empty)).2)
  = [("Order", "state", "Cancelled")].
Proof. reflexivity. Qed.

(** With a handle whose updates fail, the error comes back, the state in
    memory is Paid all the same, and nothing reaches the handle. *)
Example pay_with_update_down :
  let result := Do "pay" 7 [AnyInt 10] (order_world "Created" mem_update_down) in
  result.1 = Return (Some (errors_New "boom")) /\
  GetState (stater result.2) = "Paid" /\
  db result.2 = mem_update_down /\
  audit_records (calls result.2) = [].
Proof. vm_compute. repeat split. Qed.

(** [Do_returns] on an order: the entries of pay are well typed. *)
Lemma Do_returns_witness :
  exists err, (Do "pay" 7 [AnyInt 10] (order_world "Created" mem_empty)).1 = Return err.
Proof.
  apply (Do_returns "pay" 7 [AnyInt 10] (order_world "Created" mem_empty)).
  - intros config Hdecl.
    assert (Triggers (stater (order_world "Created" mem_empty)) !! "pay" = Some pay_config)
      as Hpay by reflexivity.
    rewrite Hpay in Hdecl. injection Hdecl as <-. reflexivity.
  - reflexivity.
Defined.

(** [state_always_valid] on an order that is paid, shipped and then refused
    a cancellation. *)
Lemma state_always_valid_witness :
  state_valid
    (stater (Do_all [("pay", 7%N, [AnyInt 10]); ("ship", 7%N, []); ("cancel", 7%N, [])]
                    (order_world "Created" mem_empty))).
Proof.
  apply (state_always_valid
           [("pay", 7%N, [AnyInt 10]); ("ship", 7%N, []); ("cancel", 7%N, [])]
           (order_world "Created" mem_empty)).
  - unfold state_valid. simpl. left. reflexivity.
  - intros trigger config dest Hdecl Hdst. simpl in Hdecl. unfold order_triggers in Hdecl.
    repeat (apply lookup_insert_Some in Hdecl as [[_ <-]|[_ Hdecl]];
            [vm_compute in Hdst; injection Hdst as <-; simpl; tauto|]).
    by rewrite lookup_empty in Hdecl.
Defined.

(** [order_entries] is one of the orders [range] may take. *)
Lemma order_entries_range : range_order order_triggers order_entries.
Proof.
  unfold range_order, order_entries, order_triggers. symmetry.
  repeat (etransitivity;
          [apply map_to_list_insert; reflexivity|apply Permutation_skip]).
  by rewrite map_to_list_empty.
Qed.

(** [AvailableTriggers_entries] on a paid order. *)
Lemma AvailableTriggers_entries_witness :
  exists l,
    AvailableTriggers_along order_entries (order "Paid") [] = Val l /\
    (forall trigger,
       (exists a, In a l /\ Trigger a = trigger) <->
       (exists config pieces,
          Triggers (order "Paid") !! trigger = Some config /\
          sourceStates config = Some pieces /\ In (GetState (order "Paid")) pieces)) /\
    (forall a, In a l ->
       TranslatedTrigger a = Lang_Sprintf (StructName (order "Paid") +:+ ":" +:+ Trigger a)) /\
    (forall trigger config pieces,
       Triggers (order "Paid") !! trigger = Some config ->
       sourceStates config = Some pieces ->
       NoDup pieces -> In (GetState (order "Paid")) pieces ->
       count_trigger trigger l = 1) /\
    l ≡ₚ flat_map (entry_triggers (order "Paid")) (map_to_list (Triggers (order "Paid"))).
Proof.
  apply (AvailableTriggers_entries (order "Paid")
           (AvailableTriggers_along order_entries (order "Paid") [])).
  - intros trigger config Hdecl. simpl in Hdecl. unfold order_triggers in Hdecl.
    repeat (apply lookup_insert_Some in Hdecl as [[_ <-]|[_ Hdecl]]; [reflexivity|]).
    by rewrite lookup_empty in Hdecl.
  - exists order_entries. split; [exact order_entries_range|reflexivity].
Defined.

(** C2 (counterexample): a trigger whose source list names the current
    state twice gets two entries, on every iteration order; and for an
    order in state Paid both [ship; cancel] and [cancel; ship] may be
    returned. *)
Lemma AvailableTriggers_repeats_and_reorders :
  (forall r, AvailableTriggers twice r -> r = Val [twice_entry; twice_entry]) /\
  AvailableTriggers twice (Val [twice_entry; twice_entry]) /\
  AvailableTriggers (order "Paid") (Val [ship_entry; cancel_entry]) /\
  AvailableTriggers (order "Paid") (Val [cancel_entry; ship_entry]).
Proof.
  assert (map_to_list (Triggers twice) = [("pay", twice_config)]) as Htwice.
  { simpl. by rewrite insert_empty, map_to_list_singleton. }
  repeat split.
  - intros r (entries & Horder & ->). unfold range_order in Horder.
    rewrite Htwice in Horder. apply Permutation_singleton_r in Horder. subst entries.
    reflexivity.
  - exists [("pay", twice_config)]. split; [|reflexivity].
    unfold range_order. by rewrite Htwice.
  - exists order_entries. split; [exact order_entries_range|reflexivity].
  - exists (rev order_entries). split; [|reflexivity].
    unfold range_order. etransitivity; [|exact order_entries_range].
    symmetry. apply Permutation_rev.
Qed.

(** C4 (counterexample): the error [Do] returns when the after-hook of
    [regret] fails is the error it returns when the before-hook of
    [refuse] fails, so nothing in it tells the after phase from the
    before phase. *)
Lemma after_error_names_no_phase :
  (Do "regret" 7 [] (order_world "Created" mem_empty)).1
    = Return (Some (errors_New "boom")) /\
  (Do "refuse" 7 [] (order_world "Created" mem_empty)).1
    = Return (Some (errors_New "boom")) /\
  ~ exists phase_of : Res unit -> Phase,
      phase_of (Do "regret" 7 [] (order_world "Created" mem_empty)).1 = AfterPhase /\
      phase_of (Do "refuse" 7 [] (order_world "Created" mem_empty)).1 = BeforePhase.
Proof.
  assert ((Do "regret" 7 [] (order_world "Created" mem_empty)).1
          = Return (Some (errors_New "boom"))) as Hafter by reflexivity.
  assert ((Do "refuse" 7 [] (order_world "Created" mem_empty)).1
          = Return (Some (errors_New "boom"))) as Hbefore by reflexivity.
  repeat split; [done..|].
  intros (phase_of & H1 & H2). rewrite Hafter in H1. rewrite Hbefore in H2.
  congruence.
Qed.

(** C5 (counterexample): the error [Do] returns when the before-hook of
    [refuse] fails is the error it returns when the update of the state
    column fails in [pay], so it carries no mark of the before phase. *)
Lemma before_error_names_no_phase :
  (Do "refuse" 7 [] (order_world "Created" mem_empty)).1
    = Return (Some (errors_New "boom")) /\
  (Do "pay" 7 [AnyInt 10] (order_world "Created" mem_update_down)).1
    = Return (Some (errors_New "boom")) /\
  ~ exists phase_of : Res unit -> Phase,
      phase_of (Do "refuse" 7 [] (order_world "Created" mem_empty)).1 = BeforePhase /\
      phase_of (Do "pay" 7 [AnyInt 10] (order_world "Created" mem_update_down)).1
        = PersistPhase.
Proof.
  assert ((Do "refuse" 7 [] (order_world "Created" mem_empty)).1
          = Return (Some (errors_New "boom"))) as Hbefore by reflexivity.
  assert ((Do "pay" 7 [AnyInt 10] (order_world "Created" mem_update_down)).1
          = Return (Some (errors_New "boom"))) as Hpersist by reflexivity.
  repeat split; [done..|].
  intros (phase_of & H1 & H2). rewrite Hbefore in H1. rewrite Hpersist in H2.
  congruence.
Qed.

(** ** The further properties on the in-memory handle *)

(** [AvailableTriggers_lists_accepted] on a paid order and the trigger
    ship. *)
Lemma AvailableTriggers_lists_accepted_witness :
  (exists a, In a [ship_entry; cancel_entry] /\ Trigger a = "ship") <->
  ~ exists err, Do "ship" 7 [] (order_world "Paid" mem_empty)
                = (Return (Some err), order_world "Paid" mem_empty).
Proof.
  apply (AvailableTriggers_lists_accepted "ship" 7 [] (order_world "Paid" mem_empty)
           [ship_entry; cancel_entry]).
  - intros t config Hdecl. simpl in Hdecl. unfold order_triggers in Hdecl.
    repeat (apply lookup_insert_Some in Hdecl as [[_ <-]|[_ Hdecl]]; [reflexivity|]).
    by rewrite lookup_empty in Hdecl.
  - exists order_entries. split; [exact order_entries_range|reflexivity].
Defined.

(** [Do_audit_insert_fails] on an order, with a handle that refuses
    audit records. *)
Lemma Do_audit_insert_fails_witness :
  exists w',
    Do "pay" 7 [AnyInt 10] (order_world "Created" mem_create_down)
      = (Return (Some (errors_New "boom")), w') /\
    stater w' = SetState "Paid" (order "Created") /\
    db w' = mem_updated "Paid" mem_create_down /\
    updates (calls w')
    = updates no_calls
      ++ [CallUpdate (SetState "Paid" (order "Created")) [clause_Associations] "state" "Paid" None] /\
    audit_records (calls w') = audit_records no_calls.
Proof.
  apply (Do_audit_insert_fails "pay" 7 [AnyInt 10] (order "Created") mem_create_down
           no_calls pay_config "Created" "Paid" 1 (errors_New "boom")
           mem_create_down mem_create_down
           (mem_updated "Paid" mem_create_down) (mem_updated "Paid" mem_create_down)
           (mem_updated "Paid" mem_create_down)).
  - reflexivity.
  - reflexivity.
  - reflexivity.
  - simpl. left. reflexivity.
  - reflexivity.
  - reflexivity.
  - reflexivity.
  - reflexivity.
  - reflexivity.
  - reflexivity.
Defined.

(** [Do_panics_without_ID] on an order without the field "ID". *)
Lemma Do_panics_without_ID_witness :
  exists msg w',
    Do "cancel" 7 [] {| stater := anonymous_order "Created"; db := mem_empty;
                        calls := no_calls |}
      = (Panic msg, w') /\
    stater w' = SetState "Cancelled" (anonymous_order "Created") /\
    db w' = mem_updated "Cancelled" mem_empty /\
    calls w'
    = ((((no_calls ++ called_if_present CallCondition (cancel_config !! "condition") [])
         ++ called_if_present CallBefore (cancel_config !! "before") [])
        ++ [CallUpdate (SetState "Cancelled" (anonymous_order "Created")) [clause_Associations]
              "state" "Cancelled" None])
       ++ called_if_present CallAfter (cancel_config !! "after") [])
      ++ [CallPrintln (List.last (Split "Created,Paid" ",") "") "Cancelled"] /\
    audit_records (calls w') = audit_records no_calls.
Proof.
  apply (Do_panics_without_ID "cancel" 7 [] (anonymous_order "Created") mem_empty
           no_calls cancel_config "Created,Paid" "Cancelled"
           mem_empty mem_empty
           (mem_updated "Cancelled" mem_empty) (mem_updated "Cancelled" mem_empty)).
  - reflexivity.
  - reflexivity.
  - reflexivity.
  - simpl. left. reflexivity.
  - reflexivity.
  - reflexivity.
  - reflexivity.
  - reflexivity.
  - reflexivity.
Defined.

(** [Do_logs_prior_state] on an order that is paid. *)
Lemma Do_logs_prior_state_witness :
  Do "pay" 7 [AnyInt 10] (order_world "Created" mem_empty)
  = (Return None,
     {| stater := SetState "Paid" (order "Created");
        db := mem_logged (audit_record (order "Created") 1 "pay" "Created" "Paid" 7)
                (mem_updated "Paid" mem_empty);
        calls := (((((no_calls
                      ++ called_if_present CallCondition (pay_config !! "condition")
                           [AnyInt 10])
                     ++ called_if_present CallBefore (pay_config !! "before") [AnyInt 10])
                    ++ [CallUpdate (SetState "Paid" (order "Created")) [clause_Associations] "state" "Paid" None])
                   ++ called_if_present CallAfter (pay_config !! "after") [AnyInt 10])
                  ++ [CallPrintln (GetState (order "Created")) "Paid"])
                 ++ [CallCreate
                       (audit_record (order "Created") 1 "pay"
                          (GetState (order "Created")) "Paid" 7) None] |}).
Proof.
  apply (Do_logs_prior_state "pay" 7 [AnyInt 10] (order "Created") mem_empty no_calls
           pay_config "Created" "Paid" 1
           mem_empty mem_empty (mem_updated "Paid" mem_empty) (mem_updated "Paid" mem_empty)
           (mem_logged (audit_record (order "Created") 1 "pay" "Created" "Paid" 7)
              (mem_updated "Paid" mem_empty))).
  - reflexivity.
  - reflexivity.
  - reflexivity.
  - reflexivity.
  - reflexivity.
  - reflexivity.
  - reflexivity.
  - reflexivity.
  - reflexivity.
  - reflexivity.
Defined.

(** [Do_not_twice] on an order that is paid and asked to be paid again. *)
Lemma Do_not_twice_witness :
  let w1 := (Do "pay" 7 [AnyInt 10] (order_world "Created" mem_empty)).2 in
  Do "pay" 8 [AnyInt 5] w1
  = (Return (Some (errors_New ("can not do trigger: " +:+ "pay" +:+
                               ", current state: " +:+ "Paid"))), w1).
Proof.
  apply (Do_not_twice "pay" 7 [AnyInt 10] 8 [AnyInt 5] (order "Created") mem_empty
           no_calls pay_config "Created" "Paid" 1
           mem_empty mem_empty (mem_updated "Paid" mem_empty) (mem_updated "Paid" mem_empty)
           (mem_logged (audit_record (order "Created") 1 "pay" "Created" "Paid" 7)
              (mem_updated "Paid" mem_empty))).
  - reflexivity.
  - reflexivity.
  - reflexivity.
  - simpl. left. reflexivity.
  - reflexivity.
  - reflexivity.
  - reflexivity.
  - reflexivity.
  - reflexivity.
  - reflexivity.
  - simpl. intros [Heq|[]]. discriminate.
Defined.

(** [Do_panics_on_untyped_entry] on a trigger whose source is a number. *)
Lemma Do_panics_on_untyped_entry_witness :
  exists msg,
    Do "unsourced" 7 [] {| stater := sloppy; db := mem_empty; calls := no_calls |}
    = (Panic msg, {| stater := sloppy; db := mem_empty; calls := no_calls |}).
Proof.
  apply (Do_panics_on_untyped_entry "unsourced" 7 []
           {| stater := sloppy; db := mem_empty; calls := no_calls |} unsourced_config).
  - reflexivity.
  - reflexivity.
Defined.

(** [Do_panics_on_untyped_guard] on a trigger whose guard is a boolean. *)
Lemma Do_panics_on_untyped_guard_witness :
  exists msg,
    Do "misguarded" 7 [] {| stater := sloppy; db := mem_empty; calls := no_calls |}
    = (Panic msg, {| stater := sloppy; db := mem_empty; calls := no_calls |}).
Proof.
  apply (Do_panics_on_untyped_guard "misguarded" 7 []
           {| stater := sloppy; db := mem_empty; calls := no_calls |}
           misguarded_config "Created" "Paid" (IVal (AnyBool true))).
  - reflexivity.
  - reflexivity.
  - reflexivity.
  - simpl. left. reflexivity.
  - reflexivity.
  - reflexivity.
Defined.

(** [Do_panics_on_untyped_after] on a trigger whose after-hook is a
    string. *)
Lemma Do_panics_on_untyped_after_witness :
  exists msg,
    Do "misnotified" 7 [] {| stater := sloppy; db := mem_empty; calls := no_calls |}
    = (Panic msg,
       {| stater := SetState "Paid" sloppy;
          db := {| mem_columns := [("Sloppy", "state", "Paid")]; mem_audit := [];
                   mem_update_error := None; mem_create_error := None |};
          calls := ((no_calls
                     ++ called_if_present CallCondition (misnotified_config !! "condition") [])
                    ++ called_if_present CallBefore (misnotified_config !! "before") [])
                   ++ [CallUpdate (SetState "Paid" sloppy) [clause_Associations] "state" "Paid" None] |}).
Proof.
  apply (Do_panics_on_untyped_after "misnotified" 7 [] sloppy mem_empty no_calls
           misnotified_config "Created" "Paid" (IVal (AnyString "notify"))
           mem_empty mem_empty
           {| mem_columns := [("Sloppy", "state", "Paid")]; mem_audit := [];
              mem_update_error := None; mem_create_error := None |}).
  - reflexivity.
  - reflexivity.
  - reflexivity.
  - simpl. left. reflexivity.
  - reflexivity.
  - reflexivity.
  - reflexivity.
  - reflexivity.
  - reflexivity.
Defined.

(** [TranslatedState_tells_apart] on two paid orders, with the printer
    that prints keys as they are. *)
Lemma TranslatedState_tells_apart_witness :
  StructName (order "Paid") = StructName (anonymous_order "Paid") /\
  GetState (order "Paid") = GetState (anonymous_order "Paid").
Proof.
  apply (TranslatedState_tells_apart (order "Paid") (anonymous_order "Paid")).
  - intros key1 key2 Hkeys. exact Hkeys.
  - reflexivity.
  - reflexivity.
  - reflexivity.
Defined.

(** [Split_of_join] on the source list of cancel. *)
Lemma Split_of_join_witness :
  Split (String.concat (String "," "") ["Created"; "Paid"]) "," = ["Created"; "Paid"].
Proof.
  apply (Split_of_join ["Created"; "Paid"] ",").
  - discriminate.
  - repeat constructor.
Defined.

(** [AfterFind] on a slice of two entities followed by a struct value:
    the two are bound, then the assertion panics. *)
Example AfterFind_mixed_slice :
  AfterFind (ModelSlice [PtrToStater 1; PtrToStater 2; NotStater; PtrToStater 3])
    two_entities
  = (Panic "interface conversion: interface {} is not common.Stater",
     <[2%N := 2%N]> (<[1%N := 1%N]> two_entities)).
Proof. reflexivity. Qed.
